(** * FinancialSimulation: the engine of src/financial-simulation.js

    A shallow embedding of the class [FinancialSimulation] and the proofs of
    its specified properties.

    Conventions of the embedding.
    - A JavaScript number is an exact rational ([Qc], canonical, so that two
      equal numbers are the same term) or [NaN]; [undefined] is a value of
      its own.  Arithmetic is exact: the rounding of binary64, the signed
      zero and the infinities are left out.
    - A plain object used as a record of numbers ([player.expenses],
      [player.skills]) is an association list in property order.
    - A catalog object indexed with [obj[key]] is looked up through the
      prototype chain, as the language does.
    - A method is a computation over the engine and its environment (the
      random source and the calls made to listeners) that returns or throws.
    - A listener is the caller's code: the call is recorded, and taken to
      return without touching the engine.
    - Arguments have the types the methods expect: names are strings,
      amounts are numbers (or [undefined]).  The month and the year are
      integers: they start at 1 and change by [++] and the reset to 1. *)

From Stdlib Require Import ZArith QArith Qcanon Qround List String Bool Lia Permutation.
Import ListNotations.
Open Scope string_scope.
Open Scope list_scope.
Open Scope Z_scope.

(** ** JavaScript values *)

Module JS.

Inductive jsval : Type :=
| Undefined
| NaN
| Num (q : Qc).

(** Number literals: [int 400] is 400 and [dec 13 10] is 1.3. *)
Definition int (n : Z) : Qc := Q2Qc (inject_Z n).
Definition dec (n : Z) (d : positive) : Qc := Q2Qc (n # d).

(** Binary arithmetic operators apply ToNumber to both operands:
    [undefined] becomes [NaN], and [NaN] is absorbing. *)
Definition arith (f : Qc -> Qc -> Qc) (a b : jsval) : jsval :=
  match a, b with
  | Num x, Num y => Num (f x y)
  | _, _ => NaN
  end.

Definition add : jsval -> jsval -> jsval := arith Qcplus.
Definition sub : jsval -> jsval -> jsval := arith Qcminus.
Definition mul : jsval -> jsval -> jsval := arith Qcmult.

(** The source divides by the literal 12 only; a zero divisor (an infinity
    in the language) is outside the model and reads as [NaN]. *)
Definition div (a b : jsval) : jsval :=
  match a, b with
  | Num x, Num y => if Qc_eq_bool y 0%Qc then NaN else Num (x / y)%Qc
  | _, _ => NaN
  end.

Definition neg (a : jsval) : jsval :=
  match a with
  | Num x => Num (- x)%Qc
  | _ => NaN
  end.

(** Relational operators: a comparison with [NaN] is false. *)
Definition compare_with (test : comparison -> bool) (a b : jsval) : bool :=
  match a, b with
  | Num x, Num y => test (Qccompare x y)
  | _, _ => false
  end.

Definition lt : jsval -> jsval -> bool :=
  compare_with (fun c => match c with Lt => true | _ => false end).
Definition gt : jsval -> jsval -> bool :=
  compare_with (fun c => match c with Gt => true | _ => false end).
Definition ge : jsval -> jsval -> bool :=
  compare_with (fun c => match c with Lt => false | _ => true end).

(** [Math.round]: the nearest integer, a tie going up. *)
Definition Math_round (a : jsval) : jsval :=
  match a with
  | Num x => Num (int (Qfloor (x + dec 1 2)%Qc))
  | _ => NaN
  end.

Definition Math_abs (a : jsval) : jsval :=
  match a with
  | Num x => Num (if Qle_bool 0 x then x else (- x)%Qc)
  | _ => NaN
  end.

(** *** Plain objects holding values, in property order *)

Definition object : Type := list (string * jsval).

Fixpoint own {A : Type} (o : list (string * A)) (key : string) : option A :=
  match o with
  | [] => None
  | (k, v) :: rest => if String.eqb k key then Some v else own rest key
  end.

Definition hasOwnProperty {A : Type} (o : list (string * A)) (key : string) : bool :=
  match own o key with
  | Some _ => true
  | None => false
  end.

(** [o.key] for a key that no prototype defines. *)
Definition get (o : object) (key : string) : jsval :=
  match own o key with
  | Some v => v
  | None => Undefined
  end.

(** [o[key] = v]: an existing property keeps its place, a new one goes last. *)
Fixpoint set {A : Type} (o : list (string * A)) (key : string) (v : A)
  : list (string * A) :=
  match o with
  | [] => [(key, v)]
  | (k, x) :: rest =>
      if String.eqb k key then (k, v) :: rest else (k, x) :: set rest key v
  end.

Definition keys {A : Type} (o : list (string * A)) : list string := map fst o.
Definition values {A : Type} (o : list (string * A)) : list A := map snd o.

(** *** Property lookup through the prototype chain

    The members every object literal inherits from [Object.prototype]. *)
Definition Object_prototype : list string :=
  [ "constructor"; "hasOwnProperty"; "isPrototypeOf"; "propertyIsEnumerable";
    "toLocaleString"; "toString"; "valueOf"; "__proto__";
    "__defineGetter__"; "__defineSetter__"; "__lookupGetter__";
    "__lookupSetter__" ].

(** The result of [obj[key]] on an object literal: an own entry, an
    inherited member (a function, or the prototype itself: an object
    with none of the catalog's fields) or [undefined]. *)
Inductive property (A : Type) : Type :=
| Own (a : A)
| Inherited
| Absent.
Arguments Own {A} a.
Arguments Inherited {A}.
Arguments Absent {A}.

Definition lookup {A : Type} (o : list (string * A)) (key : string) : property A :=
  match own o key with
  | Some a => Own a
  | None =>
      if existsb (String.eqb key) Object_prototype then Inherited else Absent
  end.

(** Every object and function is truthy; [undefined] is not. *)
Definition truthy {A : Type} (p : property A) : bool :=
  match p with
  | Absent => false
  | _ => true
  end.

(** ToPropertyKey of a value that is [null] or a string. *)
Definition property_key (k : option string) : string :=
  match k with
  | Some s => s
  | None => "null"
  end.

Inductive error : Type :=
| TypeError.

End JS.

Import JS.

(** ** The catalogs *)

Record Location : Type := {
  costMultiplier : Qc;
  jobOpportunities : Qc;
  salaryMultiplier : Qc;
  housingCost : Qc;
  location_description : string
}.

Record JobType : Type := {
  eduReq : Qc;
  expReq : Qc;
  baseSalary : Qc;
  job_description : string
}.

(** ** The game state *)

Record Job : Type := {
  title : string;
  job_salary : jsval;
  monthsWorked : jsval
}.

Record Finance : Type := {
  salary : jsval;
  savings : jsval;
  debt : jsval;
  investments : list jsval
}.

(** The text of a history entry: the template of the source with the
    values it interpolates (the formatting of [toLocaleString] and
    [toFixed] depends on the locale and is not modelled). *)
Inductive Message : Type :=
| GotJob (title : string) (salary : jsval)
| GotRaise (raiseAmount raisePercent : jsval)
| MonthSummary (month year : Z) (income expenses savings : jsval)
| RandomEventHappened (name description : string) (gained : bool) (amount : jsval)
| ImprovedSkill (skillName : string) (level cost : jsval)
| Text (entry : string).

Record HistoryEntry : Type := {
  month : Z;
  year : Z;
  entry : Message
}.

Record Player : Type := {
  location : option string;
  job : option Job;
  skills : object;
  finance : Finance;
  expenses : object;
  history : list HistoryEntry
}.

(** A cost is a number or a function of the player. *)
Inductive EventCost : Type :=
| Amount (cost : jsval)
| Computed (cost : Player -> jsval).

Record RandomEvent : Type := {
  name : string;
  description : string;
  cost : EventCost;
  probability : Qc
}.

(** The snapshot of [getGameState]. *)
Record GameState : Type := {
  state_player : Player;
  state_gameMonth : Z;
  state_gameYear : Z;
  state_difficultyLevel : string
}.

Record AvailableJob : Type := {
  offer_title : string;
  offer_details : JobType;
  adjustedSalary : jsval
}.

(** The data of a notification. *)
Inductive Payload : Type :=
| LocationChanged (locationName : string)
| JobsAvailable (availableJobs : list AvailableJob)
| JobAccepted (job : Job)
| Raise (oldSalary newSalary raisePercent : jsval)
| MonthProcessed (month year : Z) (income expenses savings : jsval) (isBroke : bool)
| RandomEventFired (name description : string) (cost : jsval)
| ExpenseUpdated (category : string) (amount totalExpenses : jsval)
| SkillImproved (skill : string) (newLevel cost : jsval)
| GameLoaded (state : GameState)
| Null.

(** A listener is known by an identifier: its code is the caller's. *)
Definition Listener : Type := nat.

Record Engine : Type := {
  player : Player;
  gameMonth : Z;
  gameYear : Z;
  difficultyLevel : string;
  eventListeners : list (string * list Listener)
}.

(** The environment of a run: the draws [Math.random] will produce, how many
    were taken, and the calls made to listeners, oldest first. *)
Record World : Type := {
  draws : nat -> Qc;
  drawn : nat;
  calls : list (Listener * string * Payload)
}.

(** ** Field updates *)

Definition with_player (f : Player -> Player) (e : Engine) : Engine :=
  {| player := f (player e);
     gameMonth := gameMonth e;
     gameYear := gameYear e;
     difficultyLevel := difficultyLevel e;
     eventListeners := eventListeners e |}.

Definition set_calendar (m y : Z) (e : Engine) : Engine :=
  {| player := player e;
     gameMonth := m;
     gameYear := y;
     difficultyLevel := difficultyLevel e;
     eventListeners := eventListeners e |}.

Definition set_eventListeners (l : list (string * list Listener)) (e : Engine) : Engine :=
  {| player := player e;
     gameMonth := gameMonth e;
     gameYear := gameYear e;
     difficultyLevel := difficultyLevel e;
     eventListeners := l |}.

Definition set_location (l : option string) (p : Player) : Player :=
  {| location := l; job := job p; skills := skills p; finance := finance p;
     expenses := expenses p; history := history p |}.

Definition set_job (j : option Job) (p : Player) : Player :=
  {| location := location p; job := j; skills := skills p; finance := finance p;
     expenses := expenses p; history := history p |}.

Definition set_skills (s : object) (p : Player) : Player :=
  {| location := location p; job := job p; skills := s; finance := finance p;
     expenses := expenses p; history := history p |}.

Definition set_finance (f : Finance) (p : Player) : Player :=
  {| location := location p; job := job p; skills := skills p; finance := f;
     expenses := expenses p; history := history p |}.

Definition set_expenses (x : object) (p : Player) : Player :=
  {| location := location p; job := job p; skills := skills p; finance := finance p;
     expenses := x; history := history p |}.

Definition set_history (h : list HistoryEntry) (p : Player) : Player :=
  {| location := location p; job := job p; skills := skills p; finance := finance p;
     expenses := expenses p; history := h |}.

Definition set_salary (v : jsval) (f : Finance) : Finance :=
  {| salary := v; savings := savings f; debt := debt f; investments := investments f |}.

Definition set_savings (v : jsval) (f : Finance) : Finance :=
  {| salary := salary f; savings := v; debt := debt f; investments := investments f |}.

Definition set_job_salary (v : jsval) (j : Job) : Job :=
  {| title := title j; job_salary := v; monthsWorked := monthsWorked j |}.

Definition set_monthsWorked (v : jsval) (j : Job) : Job :=
  {| title := title j; job_salary := job_salary j; monthsWorked := v |}.

(** ** Computations *)

Inductive Outcome (A : Type) : Type :=
| Returns (a : A) (e : Engine) (w : World)
| Throws (err : error) (e : Engine) (w : World).
Arguments Returns {A} a e w.
Arguments Throws {A} err e w.

Definition M (A : Type) : Type := Engine -> World -> Outcome A.

Definition ret {A : Type} (a : A) : M A := fun e w => Returns a e w.

Definition bind {A B : Type} (m : M A) (k : A -> M B) : M B :=
  fun e w =>
    match m e w with
    | Returns a e' w' => k a e' w'
    | Throws err e' w' => Throws err e' w'
    end.

Definition throw {A : Type} (err : error) : M A := fun e w => Throws err e w.

Definition gets {A : Type} (f : Engine -> A) : M A := fun e w => Returns (f e) e w.

Definition modify (f : Engine -> Engine) : M unit := fun e w => Returns tt (f e) w.

Declare Scope js_scope.
Delimit Scope js_scope with js.
Notation "x <- m ;; k" := (bind m (fun x => k))
  (at level 61, m at next level, right associativity) : js_scope.
Notation "m ;; k" := (bind m (fun _ => k))
  (at level 61, right associativity) : js_scope.
Open Scope js_scope.

(** The engine the outcome leaves behind, whether it returned or threw. *)
Definition engine_of {A : Type} (o : Outcome A) : Engine :=
  match o with
  | Returns _ e _ => e
  | Throws _ e _ => e
  end.

Definition world_of {A : Type} (o : Outcome A) : World :=
  match o with
  | Returns _ _ w => w
  | Throws _ _ w => w
  end.

(** [Math.random()]: the next draw. *)
Definition Math_random : M jsval :=
  fun e w =>
    Returns (Num (draws w (drawn w))) e
      {| draws := draws w; drawn := S (drawn w); calls := calls w |}.

(** [callback(data)] for a listener registered under [event]. *)
Definition call (event : string) (data : Payload) (callback : Listener) : M unit :=
  fun e w =>
    Returns tt e
      {| draws := draws w; drawn := drawn w;
         calls := calls w ++ [(callback, event, data)] |}.

(** [obj[key].field] on a catalog: reading a field of [undefined] throws,
    an inherited member has no such field. *)
Definition field {A : Type} (f : A -> Qc) (p : property A) : M jsval :=
  match p with
  | Own a => ret (Num (f a))
  | Inherited => ret Undefined
  | Absent => throw TypeError
  end.

(** ** The engine *)

Definition mkLocation (c j s h : Qc) (d : string) : Location :=
  {| costMultiplier := c; jobOpportunities := j; salaryMultiplier := s;
     housingCost := h; location_description := d |}.

Definition locations : list (string * Location) :=
  [ ("Big City",
      mkLocation (dec 15 10) (dec 12 10) (dec 13 10) (int 1500)
        "High cost of living but better job opportunities and salaries.");
    ("Suburb",
      mkLocation (dec 12 10) (dec 10 10) (dec 11 10) (int 1200)
        "Balanced cost of living and job opportunities.");
    ("Small Town",
      mkLocation (dec 8 10) (dec 7 10) (dec 8 10) (int 800)
        "Lower cost of living but fewer job opportunities and lower salaries.");
    ("Rural Area",
      mkLocation (dec 6 10) (dec 5 10) (dec 7 10) (int 600)
        "Very low cost of living but limited job opportunities.") ].

Definition mkJobType (edu exp base : Z) (d : string) : JobType :=
  {| eduReq := int edu; expReq := int exp; baseSalary := int base;
     job_description := d |}.

Definition jobTypes : list (string * JobType) :=
  [ ("Entry Level Office",
      mkJobType 1 0 30000 "Basic office job with minimal requirements.");
    ("Retail",
      mkJobType 0 0 25000 "Customer service role with no formal requirements.");
    ("Skilled Trade",
      mkJobType 1 1 45000 "Specialized skills with some experience required.");
    ("Professional",
      mkJobType 2 1 60000 "Professional position requiring education and experience.");
    ("Management",
      mkJobType 2 3 80000 "Leadership position with significant experience required.");
    ("Executive",
      mkJobType 3 5 120000 "Top-level position with extensive requirements.") ].

Definition randomEvents : list RandomEvent :=
  [ {| name := "Car Breakdown"; description := "Your car needs repairs.";
       cost := Amount (Num (int 800)); probability := dec 5 100 |};
    {| name := "Medical Emergency"; description := "Unexpected medical bills.";
       cost := Amount (Num (int 1200)); probability := dec 3 100 |};
    {| name := "Tax Refund"; description := "You received a tax refund!";
       cost := Amount (Num (int (-500))); probability := dec 4 100 |};
    {| name := "Family Emergency"; description := "You need to help a family member.";
       cost := Amount (Num (int 600)); probability := dec 3 100 |};
    {| name := "Bonus"; description := "You received a performance bonus!";
       cost := Computed (fun player =>
                 mul (neg (salary (finance player))) (Num (dec 5 100)));
       probability := dec 6 100 |} ].

(** The fields the body of the constructor assigns ([locations], [jobTypes]
    and [randomEvents] are assigned there too and by no other method: they
    are the constants above). *)
Definition initial : Engine :=
  {| player :=
       {| location := None;
          job := None;
          skills := [ ("education", Num (int 1)); ("experience", Num (int 0));
                      ("networking", Num (int 1)) ];
          finance := {| salary := Num (int 0); savings := Num (int 2000);
                        debt := Num (int 0); investments := [] |};
          expenses := [ ("housing", Num (int 0)); ("food", Num (int 0));
                        ("utilities", Num (int 0)); ("transportation", Num (int 0));
                        ("entertainment", Num (int 0)); ("other", Num (int 0)) ];
          history := [] |};
     gameMonth := 1;
     gameYear := 1;
     difficultyLevel := "normal";
     eventListeners := [] |}.

(** How a function is invoked.  The constructor of a [class] runs its body
    under [new] only: called as a function it throws a TypeError before the
    body starts. *)
Inductive Invocation : Type :=
| New
| FunctionCall.

Definition constructor (how : Invocation) : M unit :=
  match how with
  | New => modify (fun _ => initial)
  | FunctionCall => throw TypeError
  end.

(** *** Notifications *)

Fixpoint forEach (callbacks : list Listener) (f : Listener -> M unit) : M unit :=
  match callbacks with
  | [] => ret tt
  | callback :: rest => f callback ;; forEach rest f
  end.

Definition addEventListener (event : string) (callback : Listener) : M unit :=
  registry <- gets eventListeners ;;
  match lookup registry event with
  | Absent => modify (set_eventListeners (set registry event [callback]))
  | Own callbacks =>
      modify (set_eventListeners (set registry event (callbacks ++ [callback])))
  | Inherited => throw TypeError
  end.

Definition triggerEvent (event : string) (data : Payload) : M unit :=
  registry <- gets eventListeners ;;
  match lookup registry event with
  | Absent => ret tt
  | Own callbacks => forEach callbacks (call event data)
  | Inherited => throw TypeError
  end.

(** *** History *)

Definition addToHistory (entry : Message) : M unit :=
  modify (fun e =>
    with_player (fun p =>
      set_history
        (history p ++ [ {| month := gameMonth e; year := gameYear e; entry := entry |} ])
        p) e).

(** *** Expenses *)

Definition calculateTotalMonthlyExpenses : M jsval :=
  x <- gets (fun e => expenses (player e)) ;;
  ret (fold_left (fun total expense => add total expense) (values x) (Num (int 0))).

Definition set_expense (category : string) (v : jsval) : M unit :=
  modify (with_player (fun p => set_expenses (set (expenses p) category v) p)).

Definition updateBasicExpenses : M unit :=
  l <- gets (fun e => location (player e)) ;;
  costMultiplier <- field costMultiplier (lookup locations (property_key l)) ;;
  set_expense "food" (Math_round (mul (Num (int 400)) costMultiplier)) ;;
  set_expense "utilities" (Math_round (mul (Num (int 200)) costMultiplier)) ;;
  set_expense "transportation" (Math_round (mul (Num (int 300)) costMultiplier)) ;;
  set_expense "entertainment" (Math_round (mul (Num (int 200)) costMultiplier)) ;;
  set_expense "other" (Math_round (mul (Num (int 100)) costMultiplier)).

Definition updateExpense (category : string) (amount : jsval) : M bool :=
  x <- gets (fun e => expenses (player e)) ;;
  if hasOwnProperty x category then
    set_expense category amount ;;
    totalExpenses <- calculateTotalMonthlyExpenses ;;
    triggerEvent "expenseUpdated" (ExpenseUpdated category amount totalExpenses) ;;
    ret true
  else ret false.

(** *** Configuration *)

Definition setLocation (locationName : string) : M bool :=
  if truthy (lookup locations locationName) then
    modify (with_player (set_location (Some locationName))) ;;
    housing <- field housingCost (lookup locations locationName) ;;
    set_expense "housing" housing ;;
    updateBasicExpenses ;;
    triggerEvent "locationChanged" (LocationChanged locationName) ;;
    ret true
  else ret false.

(** *** Career *)

Definition skill (skillName : string) : M jsval :=
  gets (fun e => get (skills (player e)) skillName).

Definition calculateSalary (baseSalary : jsval) : M jsval :=
  l <- gets (fun e => location (player e)) ;;
  locationMultiplier <- field salaryMultiplier (lookup locations (property_key l)) ;;
  education <- skill "education" ;;
  experience <- skill "experience" ;;
  let educationBonus := mul education (Num (dec 5 100)) in
  let experienceBonus := mul experience (Num (dec 3 100)) in
  r <- Math_random ;;
  let randomFactor := add (Num (dec 9 10)) (mul r (Num (dec 2 10))) in
  ret (Math_round
         (mul (mul (mul baseSalary locationMultiplier)
                   (add (add (Num (int 1)) educationBonus) experienceBonus))
              randomFactor)).

Fixpoint rollJobs (locationFactor : jsval) (entries : list (string * JobType))
  : M (list AvailableJob) :=
  match entries with
  | [] => ret []
  | (jobTitle, jobDetails) :: rest =>
      education <- skill "education" ;;
      experience <- skill "experience" ;;
      let educationMet := ge education (Num (eduReq jobDetails)) in
      let experienceMet := ge experience (Num (expReq jobDetails)) in
      r <- Math_random ;;
      let chance := mul r locationFactor in
      let qualifiedBonus :=
        if educationMet && experienceMet then Num (dec 3 10) else Num (int 0) in
      networking <- skill "networking" ;;
      let networkingBonus := mul networking (Num (dec 5 100)) in
      if gt (add (add chance qualifiedBonus) networkingBonus) (Num (dec 5 10)) then
        adjusted <- calculateSalary (Num (baseSalary jobDetails)) ;;
        others <- rollJobs locationFactor rest ;;
        ret ({| offer_title := jobTitle; offer_details := jobDetails;
                adjustedSalary := adjusted |} :: others)
      else rollJobs locationFactor rest
  end.

Definition getAvailableJobs : M (list AvailableJob) :=
  l <- gets (fun e => location (player e)) ;;
  locationFactor <- field jobOpportunities (lookup locations (property_key l)) ;;
  availableJobs <- rollJobs locationFactor jobTypes ;;
  triggerEvent "jobsAvailable" (JobsAvailable availableJobs) ;;
  ret availableJobs.

Definition acceptJob (jobTitle : string) : M bool :=
  match find (fun '(title, _) => String.eqb title jobTitle) jobTypes with
  | None => ret false
  | Some (title, details) =>
      newSalary <- calculateSalary (Num (baseSalary details)) ;;
      let newJob := {| title := title; job_salary := newSalary;
                       monthsWorked := Num (int 0) |} in
      modify (with_player (set_job (Some newJob))) ;;
      modify (with_player (fun p => set_finance (set_salary newSalary (finance p)) p)) ;;
      addToHistory (GotJob title newSalary) ;;
      triggerEvent "jobAccepted" (JobAccepted newJob) ;;
      ret true
  end.

Definition set_finance_salary (v : jsval) : M unit :=
  modify (with_player (fun p => set_finance (set_salary v (finance p)) p)).

Definition set_finance_savings (v : jsval) : M unit :=
  modify (with_player (fun p => set_finance (set_savings v (finance p)) p)).

(** An assignment to a field of the object [player.job] refers to. *)
Definition update_job (f : Job -> Job) : M unit :=
  modify (with_player (fun p => set_job (option_map f (job p)) p)).

Definition tryForRaise : M jsval :=
  j <- gets (fun e => job (player e)) ;;
  match j with
  | None => throw TypeError
  | Some current =>
      let chance := Num (dec 5 100) in
      let chance := add chance (mul (monthsWorked current) (Num (dec 2 1000))) in
      experience <- skill "experience" ;;
      let chance := add chance (mul experience (Num (dec 1 100))) in
      networking <- skill "networking" ;;
      let chance := add chance (mul networking (Num (dec 1 100))) in
      r <- Math_random ;;
      if lt r chance then
        r' <- Math_random ;;
        let raisePercent := add (Num (dec 3 100)) (mul r' (Num (dec 5 100))) in
        oldSalary <- gets (fun e => salary (finance (player e))) ;;
        let newSalary := Math_round (mul oldSalary (add (Num (int 1)) raisePercent)) in
        set_finance_salary newSalary ;;
        update_job (set_job_salary newSalary) ;;
        let raiseAmount := sub newSalary oldSalary in
        addToHistory (GotRaise raiseAmount (mul raisePercent (Num (int 100)))) ;;
        triggerEvent "gotRaise" (Raise oldSalary newSalary raisePercent) ;;
        ret raiseAmount
      else ret (Num (int 0))
  end.

(** *** Time and money *)

Definition event_cost (event : RandomEvent) (p : Player) : jsval :=
  match cost event with
  | Computed f => f p
  | Amount v => v
  end.

(** The loop of [processRandomEvent] over the events still to try. *)
Fixpoint scanEvents (events : list RandomEvent) : M unit :=
  match events with
  | [] => ret tt
  | event :: rest =>
      r <- Math_random ;;
      if lt r (Num (probability event)) then
        p <- gets player ;;
        let c := event_cost event p in
        set_finance_savings (sub (savings (finance p)) c) ;;
        addToHistory
          (RandomEventHappened (name event) (description event)
             (lt c (Num (int 0))) (Math_abs c)) ;;
        triggerEvent "randomEvent"
          (RandomEventFired (name event) (description event) c)
      else scanEvents rest
  end.

Definition processRandomEvent : M unit := scanEvents randomEvents.

Record MonthResult : Type := {
  isBroke : bool;
  result_month : Z;
  result_year : Z
}.

(** [this.player.job ? Math.round(this.player.finance.salary / 12) : 0] *)
Definition monthIncome (p : Player) : jsval :=
  match job p with
  | Some _ => Math_round (div (salary (finance p)) (Num (int 12)))
  | None => Num (int 0)
  end.

Definition processMonth : M MonthResult :=
  j <- gets (fun e => job (player e)) ;;
  match j with
  | Some _ =>
      f <- gets (fun e => finance (player e)) ;;
      let monthlyIncome := Math_round (div (salary f) (Num (int 12))) in
      set_finance_savings (add (savings f) monthlyIncome) ;;
      update_job (fun j => set_monthsWorked (add (monthsWorked j) (Num (int 1))) j) ;;
      tryForRaise ;;
      ret tt
  | None => ret tt
  end ;;
  monthlyExpenses <- calculateTotalMonthlyExpenses ;;
  s <- gets (fun e => savings (finance (player e))) ;;
  set_finance_savings (sub s monthlyExpenses) ;;
  processRandomEvent ;;
  modify (fun e => set_calendar (gameMonth e + 1) (gameYear e) e) ;;
  m <- gets gameMonth ;;
  (if m >? 12
   then modify (fun e => set_calendar 1 (gameYear e + 1) e)
   else ret tt) ;;
  e <- gets (fun e => e) ;;
  let p := player e in
  let isBroke := lt (savings (finance p)) (Num (int 0)) in
  addToHistory
    (MonthSummary (gameMonth e) (gameYear e) (monthIncome p) monthlyExpenses
       (savings (finance p))) ;;
  triggerEvent "monthProcessed"
    (MonthProcessed (gameMonth e) (gameYear e) (monthIncome p) monthlyExpenses
       (savings (finance p)) isBroke) ;;
  ret {| isBroke := isBroke; result_month := gameMonth e; result_year := gameYear e |}.

(** *** Skills *)

(** [amount = 1]: the default stands in for a missing or [undefined] argument. *)
Definition default_amount (amount : jsval) : jsval :=
  match amount with
  | Undefined => Num (int 1)
  | _ => amount
  end.

Definition improveSkill (skillName : string) (amount : jsval) : M bool :=
  let amount := default_amount amount in
  s <- gets (fun e => skills (player e)) ;;
  if hasOwnProperty s skillName then
    let cost := mul (mul (Num (int 500)) amount) (add (get s skillName) (Num (int 1))) in
    balance <- gets (fun e => savings (finance (player e))) ;;
    if ge balance cost then
      set_finance_savings (sub balance cost) ;;
      modify (with_player (fun p =>
        set_skills (set (skills p) skillName (add (get (skills p) skillName) amount)) p)) ;;
      newLevel <- skill skillName ;;
      addToHistory (ImprovedSkill skillName newLevel cost) ;;
      triggerEvent "skillImproved" (SkillImproved skillName newLevel cost) ;;
      ret true
    else ret false
  else ret false.

(** *** Lifecycle *)

Definition getGameState : M GameState :=
  gets (fun e =>
    {| state_player := player e;
       state_gameMonth := gameMonth e;
       state_gameYear := gameYear e;
       state_difficultyLevel := difficultyLevel e |}).

Definition loadGameState (state : GameState) : M unit :=
  modify (fun e =>
    {| player := state_player state;
       gameMonth := state_gameMonth state;
       gameYear := state_gameYear state;
       difficultyLevel := state_difficultyLevel state;
       eventListeners := eventListeners e |}) ;;
  loaded <- getGameState ;;
  triggerEvent "gameLoaded" (GameLoaded loaded).

(** [this.constructor()] is a plain call of the class constructor. *)
Definition resetGame : M unit :=
  constructor FunctionCall ;;
  triggerEvent "gameReset" Null.

(** ** Runs used as examples *)

(** No listener, every draw equal to [r]. *)
Definition constant_world (r : Qc) : World :=
  {| draws := fun _ => r; drawn := 0%nat; calls := [] |}.

(** ** The salary formula in binary64

    The engine's numbers are binary64 floating-point numbers.  The model
    above computes exactly; this module evaluates the formula of
    [calculateSalary] with every literal and every operation rounded to the
    nearest binary64 number (ties to even), to check that the rounding does
    not move a result.  The range of the exponent is not modelled: the
    numbers here are far from overflow and underflow. *)

Module Binary64.

(** [n / d] rounded to the nearest integer, a tie going to the even one. *)
Definition round_half_even (n : Z) (d : positive) : Z :=
  let q := n / Zpos d in
  let r := n mod Zpos d in
  match 2 * r ?= Zpos d with
  | Lt => q
  | Gt => q + 1
  | Eq => if Z.even q then q else q + 1
  end.

(** For [x > 0], the exponent [e] with [2^52 <= x / 2^e < 2^53]. *)
Definition exponent (x : Q) : Z :=
  let k := Z.log2 (Qnum x) - Z.log2 (Zpos (Qden x)) in
  let k := if Qle_bool (Qpower 2 k) x then k else k - 1 in
  k - 52.

Definition nearest_positive (x : Q) : Q :=
  let e := exponent x in
  let s := Qred (x * Qpower 2 (- e)) in
  Qred (inject_Z (round_half_even (Qnum s) (Qden s)) * Qpower 2 e).

(** The binary64 number nearest to [x]: 53 significant bits. *)
Definition nearest (x : Q) : Q :=
  match Qcompare x 0 with
  | Eq => 0%Q
  | Gt => nearest_positive x
  | Lt => Qred (- nearest_positive (- x))
  end.

Definition literal (n : Z) (d : positive) : Q := nearest (n # d).
Definition fmul (a b : Q) : Q := nearest (a * b).
Definition fadd (a b : Q) : Q := nearest (a + b).

(** [Math.round] of a binary64 number is exact. *)
Definition Math_round (x : Q) : Z := Qfloor (x + (1 # 2)).

(** The expression [calculateSalary] returns, operation by operation. *)
Definition calculateSalary
  (baseSalary locationMultiplier education experience random : Q) : Z :=
  let educationBonus := fmul education (literal 5 100) in
  let experienceBonus := fmul experience (literal 3 100) in
  let randomFactor := fadd (literal 9 10) (fmul random (literal 2 10)) in
  Math_round
    (fmul (fmul (fmul baseSalary locationMultiplier)
                (fadd (fadd (literal 1 1) educationBonus) experienceBonus))
          randomFactor).

End Binary64.

(** ** Vocabulary of the statements *)

(** The world after [n] more draws. *)
Definition after_draws (n : nat) (w : World) : World :=
  {| draws := draws w; drawn := (n + drawn w)%nat; calls := calls w |}.

(** The listeners [triggerEvent] finds for an event that is no member of
    [Object.prototype], in subscription order. *)
Definition listeners (e : Engine) (event : string) : list Listener :=
  match own (eventListeners e) event with
  | Some callbacks => callbacks
  | None => []
  end.

(** The world after each of them was called with [data]. *)
Definition notified (event : string) (data : Payload) (e : Engine) (w : World) : World :=
  {| draws := draws w; drawn := drawn w;
     calls := calls w ++ map (fun callback => (callback, event, data)) (listeners e event) |}.

(** A computation that leaves the engine as it found it. *)
Definition readonly {A : Type} (m : M A) : Prop :=
  forall e w, engine_of (m e w) = e.

(** The expense categories of the constructor, in its order. *)
Definition categories : list string :=
  [ "housing"; "food"; "utilities"; "transportation"; "entertainment"; "other" ].

(** The sum of the values an object stores under the given names. *)
Definition sum_of (x : object) (names : list string) : jsval :=
  fold_right (fun c total => add (get x c) total) (Num (int 0)) names.

(** The sum of all the values an object stores but the one under [c]. *)
Definition sum_without (x : object) (c : string) : jsval :=
  sum_of x (filter (fun k => negb (String.eqb k c)) (keys x)).

(** The first event of [events] whose draw is below its probability, with
    its position, when the draw for the first of them is number [next]. *)
Fixpoint first_qualifying (events : list RandomEvent) (draw : nat -> Qc) (next : nat)
  : option (nat * RandomEvent) :=
  match events with
  | [] => None
  | event :: rest =>
      if lt (Num (draw next)) (Num (probability event)) then Some (0%nat, event)
      else
        match first_qualifying rest draw (S next) with
        | Some (k, later) => Some (S k, later)
        | None => None
        end
  end.

(** The engine after [event] fired: its cost taken from savings and one
    history entry added. *)
Definition fired (event : RandomEvent) (e : Engine) : Engine :=
  let c := event_cost event (player e) in
  with_player (fun p =>
    set_history
      (history p ++
       [ {| month := gameMonth e; year := gameYear e;
            entry := RandomEventHappened (name event) (description event)
                       (lt c (Num (int 0))) (Math_abs c) |} ])
      (set_finance (set_savings (sub (savings (finance p)) c) (finance p)) p)) e.

(** The public operations, with their arguments.  [ReloadGameState] is
    [loadGameState(getGameState())]; loading a snapshot made elsewhere is
    not among them. *)
Inductive Operation : Type :=
| SetLocation (locationName : string)
| GetAvailableJobs
| AcceptJob (jobTitle : string)
| CalculateSalary (baseSalary : jsval)
| TryForRaise
| ProcessMonth
| ProcessRandomEvent
| CalculateTotalMonthlyExpenses
| UpdateBasicExpenses
| UpdateExpense (category : string) (amount : jsval)
| ImproveSkill (skillName : string) (amount : jsval)
| AddToHistory (entry : Message)
| AddEventListener (event : string) (callback : Listener)
| TriggerEvent (event : string) (data : Payload)
| GetGameState
| ReloadGameState
| ResetGame.

(** The engine an operation leaves behind, whether it returned or threw. *)
Definition perform (op : Operation) (e : Engine) (w : World) : Engine :=
  match op with
  | SetLocation locationName => engine_of (setLocation locationName e w)
  | GetAvailableJobs => engine_of (getAvailableJobs e w)
  | AcceptJob jobTitle => engine_of (acceptJob jobTitle e w)
  | CalculateSalary baseSalary => engine_of (calculateSalary baseSalary e w)
  | TryForRaise => engine_of (tryForRaise e w)
  | ProcessMonth => engine_of (processMonth e w)
  | ProcessRandomEvent => engine_of (processRandomEvent e w)
  | CalculateTotalMonthlyExpenses => engine_of (calculateTotalMonthlyExpenses e w)
  | UpdateBasicExpenses => engine_of (updateBasicExpenses e w)
  | UpdateExpense category amount => engine_of (updateExpense category amount e w)
  | ImproveSkill skillName amount => engine_of (improveSkill skillName amount e w)
  | AddToHistory entry => engine_of (addToHistory entry e w)
  | AddEventListener event callback => engine_of (addEventListener event callback e w)
  | TriggerEvent event data => engine_of (triggerEvent event data e w)
  | GetGameState => engine_of (getGameState e w)
  | ReloadGameState =>
      engine_of ((state <- getGameState ;; loadGameState state) e w)
  | ResetGame => engine_of (resetGame e w)
  end.

(** The engines that a new engine can become, by any operations with any
    arguments, under any draws. *)
Inductive reachable : Engine -> Prop :=
| reachable_new : reachable initial
| reachable_step :
    forall e op w, reachable e -> reachable (perform op e w).

(** [finance.salary] is the salary of the job, or 0 without a job (the same
    stored value: a salary that is [NaN] matches itself). *)
Definition salary_matches_job (p : Player) : Prop :=
  match job p with
  | Some current => salary (finance p) = job_salary current
  | None => salary (finance p) = Num (int 0)
  end.

Definition invariant (e : Engine) : Prop :=
  keys (expenses (player e)) = categories /\ salary_matches_job (player e).

(** A computation after which [I] still holds, returned or thrown. *)
Definition keeps (I : Engine -> Prop) {A : Type} (m : M A) : Prop :=
  forall e w, I e -> I (engine_of (m e w)).

(** A computation that leaves one part [part] of the engine as it found it,
    returned or thrown. *)
Definition preserves {T A : Type} (part : Engine -> T) (m : M A) : Prop :=
  forall e w, part (engine_of (m e w)) = part e.

(** The parts of the engine's state. *)
Inductive Part : Type :=
| PartLocation
| PartJob
| PartSkills
| PartSalary
| PartSavings
| PartDebt
| PartInvestments
| PartExpenses
| PartHistory
| PartCalendar
| PartDifficulty
| PartListeners.

Definition unchanged (part : Part) (e e' : Engine) : Prop :=
  match part with
  | PartLocation => location (player e') = location (player e)
  | PartJob => job (player e') = job (player e)
  | PartSkills => skills (player e') = skills (player e)
  | PartSalary => salary (finance (player e')) = salary (finance (player e))
  | PartSavings => savings (finance (player e')) = savings (finance (player e))
  | PartDebt => debt (finance (player e')) = debt (finance (player e))
  | PartInvestments =>
      investments (finance (player e')) = investments (finance (player e))
  | PartExpenses => expenses (player e') = expenses (player e)
  | PartHistory => history (player e') = history (player e)
  | PartCalendar => gameMonth e' = gameMonth e /\ gameYear e' = gameYear e
  | PartDifficulty => difficultyLevel e' = difficultyLevel e
  | PartListeners => eventListeners e' = eventListeners e
  end.

(** The parts an operation may write to. *)
Definition footprint (op : Operation) : list Part :=
  match op with
  | SetLocation _ => [PartLocation; PartExpenses]
  | AcceptJob _ => [PartJob; PartSalary; PartHistory]
  | TryForRaise => [PartJob; PartSalary; PartHistory]
  | ProcessMonth => [PartJob; PartSalary; PartSavings; PartHistory; PartCalendar]
  | ProcessRandomEvent => [PartSavings; PartHistory]
  | UpdateBasicExpenses => [PartExpenses]
  | UpdateExpense _ _ => [PartExpenses]
  | ImproveSkill _ _ => [PartSkills; PartSavings; PartHistory]
  | AddToHistory _ => [PartHistory]
  | AddEventListener _ _ => [PartListeners]
  | GetAvailableJobs | CalculateSalary _ | CalculateTotalMonthlyExpenses
  | TriggerEvent _ _ | GetGameState | ReloadGameState | ResetGame => []
  end.

(** The history of [e'] is the history of [e] with entries added at the end. *)
Definition extends_history (e e' : Engine) : Prop :=
  exists added, history (player e') = history (player e) ++ added.

(** A computation that only adds to the history. *)
Definition grows {A : Type} (m : M A) : Prop :=
  forall e w, extends_history e (engine_of (m e w)).

(** The integer [Math.round] gives for a number: [Math_round (Num x)] is
    [Num (int (round x))]. *)
Definition round (x : Qc) : Z := Qfloor (x + dec 1 2)%Qc.

(** The chance of a raise, as [tryForRaise] adds it up. *)
Definition raiseChance (months experience networking : jsval) : jsval :=
  add (add (add (Num (dec 5 100)) (mul months (Num (dec 2 1000))))
           (mul experience (Num (dec 1 100))))
      (mul networking (Num (dec 1 100))).

(** The engine after a raise to [newSalary] from [oldSalary] at the rate
    [raisePercent]. *)
Definition raised (newSalary oldSalary raisePercent : jsval) (e : Engine) : Engine :=
  with_player (fun p =>
    set_history
      (history p ++
       [ {| month := gameMonth e; year := gameYear e;
            entry := GotRaise (sub newSalary oldSalary)
                       (mul raisePercent (Num (int 100))) |} ])
      (set_job (option_map (set_job_salary newSalary) (job p))
         (set_finance (set_salary newSalary (finance p)) p))) e.

(** An engine used in examples: a new engine at "Big City" whose player
    holds the job "Retail" at a salary of 30000, with [months] months
    worked. *)
Definition employed (months : Z) : Engine :=
  with_player (fun p =>
    set_location (Some "Big City")
      (set_job (Some {| title := "Retail"; job_salary := Num (int 30000);
                        monthsWorked := Num (int months) |})
         (set_finance (set_salary (Num (int 30000)) (finance p)) p))) initial.

(** The engine after [n] calls of [processMonth], call number [k] running
    in the world [w k]. *)
Fixpoint months (n : nat) (w : nat -> World) (e : Engine) : Engine :=
  match n with
  | O => e
  | S k => engine_of (processMonth (months k w e) (w k))
  end.

(** The skills of the constructor, in its order. *)
Definition skillNames : list string := [ "education"; "experience"; "networking" ].

(** A value that [Math.round] can return: [NaN] or a whole number. *)
Definition whole_or_NaN (v : jsval) : Prop :=
  v = NaN \/ exists z, v = Num (int z).

(** What holds of the player whatever the calendar. *)
Definition settled (e : Engine) : Prop :=
  keys (skills (player e)) = skillNames /\
  (forall l, location (player e) = Some l -> truthy (lookup locations l) = true) /\
  (forall j, job (player e) = Some j ->
     In (title j) (keys jobTypes) /\ location (player e) <> None) /\
  whole_or_NaN (salary (finance (player e))).

Definition wellformed (e : Engine) : Prop :=
  1 <= gameMonth e <= 12 /\ 1 <= gameYear e /\ settled e.

(** A sequence obtained from another by leaving elements out. *)
Inductive subsequence {A : Type} : list A -> list A -> Prop :=
| subsequence_nil : subsequence [] []
| subsequence_keep :
    forall x s l, subsequence s l -> subsequence (x :: s) (x :: l)
| subsequence_skip :
    forall x s l, subsequence s l -> subsequence s (x :: l).

(** ** Reasoning about computations *)

Arguments int : simpl never.
Arguments dec : simpl never.
Arguments add : simpl never.
Arguments sub : simpl never.
Arguments mul : simpl never.
Arguments div : simpl never.
Arguments neg : simpl never.
Arguments lt : simpl never.
Arguments gt : simpl never.
Arguments ge : simpl never.
Arguments Math_round : simpl never.
Arguments Math_abs : simpl never.

Lemma forEach_call :
  forall event data callbacks e w,
    forEach callbacks (call event data) e w =
    Returns tt e
      {| draws := draws w; drawn := drawn w;
         calls := calls w ++ map (fun callback => (callback, event, data)) callbacks |}.
Proof.
  intros event data callbacks.
  induction callbacks as [|c rest IH]; intros e w.
  - destruct w; simpl. now rewrite app_nil_r.
  - simpl. unfold bind at 1. unfold call at 1. rewrite IH. simpl.
    now rewrite <- app_assoc.
Qed.

(** The event names the engine itself emits are not inherited names, so
    [triggerEvent] returns after calling the listeners. *)
Lemma triggerEvent_returns :
  forall event data e w,
    existsb (String.eqb event) Object_prototype = false ->
    triggerEvent event data e w = Returns tt e (notified event data e w).
Proof.
  intros event data e w Hname.
  unfold triggerEvent, bind, gets, lookup, notified, listeners.
  destruct (own (eventListeners e) event) as [callbacks|].
  - apply forEach_call.
  - rewrite Hname. destruct w; unfold ret; simpl. now rewrite app_nil_r.
Qed.

Lemma readonly_ret : forall (A : Type) (a : A), readonly (ret a).
Proof. intros A a e w. reflexivity. Qed.

Lemma readonly_throw : forall (A : Type) (x : error), readonly (@throw A x).
Proof. intros A x e w. reflexivity. Qed.

Lemma readonly_gets : forall (A : Type) (f : Engine -> A), readonly (gets f).
Proof. intros A f e w. reflexivity. Qed.

Lemma readonly_random : readonly Math_random.
Proof. intros e w. reflexivity. Qed.

Lemma readonly_bind :
  forall (A B : Type) (m : M A) (k : A -> M B),
    readonly m -> (forall a, readonly (k a)) -> readonly (bind m k).
Proof.
  intros A B m k Hm Hk e w. unfold bind.
  specialize (Hm e w). destruct (m e w) as [a e' w'|x e' w']; simpl in Hm; subst.
  - apply Hk.
  - reflexivity.
Qed.

Lemma readonly_field :
  forall (A : Type) (f : A -> Qc) (p : property A), readonly (field f p).
Proof. intros A f [a| |] e w; reflexivity. Qed.

Lemma readonly_triggerEvent :
  forall event data, readonly (triggerEvent event data).
Proof.
  intros event data e w. unfold triggerEvent, bind, gets.
  destruct (lookup (eventListeners e) event) as [callbacks| |]; try reflexivity.
  now rewrite forEach_call.
Qed.

Create HintDb readonly.
#[local] Hint Resolve readonly_ret readonly_throw readonly_gets readonly_random
  readonly_bind readonly_field readonly_triggerEvent : readonly.

Lemma readonly_calculateSalary : forall baseSalary, readonly (calculateSalary baseSalary).
Proof. intros baseSalary. unfold calculateSalary, skill. auto 10 with readonly. Qed.

#[local] Hint Resolve readonly_calculateSalary : readonly.

Lemma readonly_rollJobs :
  forall locationFactor entries, readonly (rollJobs locationFactor entries).
Proof.
  intros locationFactor entries.
  induction entries as [|[jobTitle jobDetails] rest IH]; simpl.
  - auto with readonly.
  - unfold skill.
    repeat (apply readonly_bind; [auto with readonly | intros ?]).
    destruct (gt _ _); auto 10 with readonly.
Qed.

#[local] Hint Resolve readonly_rollJobs : readonly.

Lemma readonly_getAvailableJobs : readonly getAvailableJobs.
Proof. unfold getAvailableJobs. auto 10 with readonly. Qed.

Lemma readonly_calculateTotalMonthlyExpenses : readonly calculateTotalMonthlyExpenses.
Proof. unfold calculateTotalMonthlyExpenses. auto with readonly. Qed.

Lemma readonly_getGameState : readonly getGameState.
Proof. unfold getGameState. auto with readonly. Qed.

(** ** Symbolic execution *)

Ltac project :=
  cbn [engine_of world_of
       player gameMonth gameYear difficultyLevel eventListeners
       location job skills finance expenses history
       salary savings debt investments
       with_player set_calendar set_eventListeners set_location set_job
       set_skills set_finance set_expenses set_history set_salary set_savings].

Ltac project_in H :=
  cbn [engine_of world_of
       player gameMonth gameYear difficultyLevel eventListeners
       location job skills finance expenses history
       salary savings debt investments
       with_player set_calendar set_eventListeners set_location set_job
       set_skills set_finance set_expenses set_history set_salary set_savings] in H.

Ltac exec :=
  cbv beta iota zeta delta
    [bind gets modify ret throw Math_random field skill
     set_finance_salary set_finance_savings update_job set_expense addToHistory];
  project.

Lemma bind_triggerEvent :
  forall (A : Type) event data (k : unit -> M A) e w,
    existsb (String.eqb event) Object_prototype = false ->
    bind (triggerEvent event data) k e w = k tt e (notified event data e w).
Proof.
  intros A event data k e w Hname. unfold bind.
  now rewrite triggerEvent_returns.
Qed.

Ltac notify :=
  first [ rewrite bind_triggerEvent by reflexivity
        | rewrite triggerEvent_returns by reflexivity ].

(** ** Lifecycle *)

(** C1.  [resetGame()] calls the class constructor as a function: for every
    engine it throws a TypeError, with the engine left as it was (nothing is
    restored) and no listener called. *)
Theorem resetGame_throws :
  forall e w, resetGame e w = Throws TypeError e w.
Proof. intros e w. reflexivity. Qed.

(** What the body of the constructor does when it runs, under [new]: the
    defaults, with an empty listener registry. *)
Lemma constructor_new :
  forall e w, constructor New e w = Returns tt initial w.
Proof. intros e w. reflexivity. Qed.

(** C8.  For every engine, [loadGameState] applied to the snapshot that
    [getGameState()] returns for that engine returns normally, after telling
    the listeners of 'gameLoaded', and leaves the engine exactly as it was
    when the snapshot was taken: same player, month, year and difficulty
    level. *)
Theorem loadGameState_getGameState :
  forall e w w',
  exists state,
    getGameState e w = Returns state e w /\
    loadGameState state e w' =
      Returns tt e (notified "gameLoaded" (GameLoaded state) e w').
Proof.
  intros e w w'.
  eexists. split; [reflexivity|].
  unfold loadGameState, getGameState. exec. notify.
  destruct e; reflexivity.
Qed.

(** The same snapshot loaded into another engine makes its player, month,
    year and difficulty level those of the engine the snapshot came from,
    and keeps the listeners of the engine it is loaded into. *)
Lemma loadGameState_into :
  forall e w target w',
  exists state loaded w'',
    getGameState e w = Returns state e w /\
    loadGameState state target w' = Returns tt loaded w'' /\
    player loaded = player e /\
    gameMonth loaded = gameMonth e /\
    gameYear loaded = gameYear e /\
    difficultyLevel loaded = difficultyLevel e /\
    eventListeners loaded = eventListeners target.
Proof.
  intros e w target w'.
  do 3 eexists. split; [reflexivity|].
  unfold loadGameState, getGameState. exec. notify.
  repeat split.
Qed.

(** ** Career *)

Lemma calculateSalary_without_location :
  forall baseSalary e w,
    location (player e) = None ->
    calculateSalary baseSalary e w = Throws TypeError e w.
Proof.
  intros baseSalary e w Hloc. unfold calculateSalary. exec. now rewrite Hloc.
Qed.

(** With a location that [setLocation] accepted, [calculateSalary] returns
    after one draw. *)
Lemma calculateSalary_returns :
  forall baseSalary e w l,
    location (player e) = Some l ->
    truthy (lookup locations l) = true ->
    exists v, calculateSalary baseSalary e w = Returns v e (after_draws 1 w).
Proof.
  intros baseSalary e w l Hloc Hl. unfold calculateSalary. exec. rewrite Hloc.
  unfold property_key.
  destruct (lookup locations l); try discriminate; exec; eexists; reflexivity.
Qed.

Lemma rollJobs_returns :
  forall locationFactor entries e w l,
    location (player e) = Some l ->
    truthy (lookup locations l) = true ->
    exists availableJobs n,
      rollJobs locationFactor entries e w = Returns availableJobs e (after_draws n w).
Proof.
  intros locationFactor entries e w l Hloc Hl. revert w.
  induction entries as [|[jobTitle jobDetails] rest IH]; intros w.
  - exists [], 0%nat. destruct w; reflexivity.
  - simpl rollJobs. exec.
    match goal with |- context [if ?c then _ else _] => destruct c end.
    + destruct (calculateSalary_returns (Num (baseSalary jobDetails)) e
                  (after_draws 1 w) l Hloc Hl) as [v Hv].
      change {| draws := draws w; drawn := S (drawn w); calls := calls w |}
        with (after_draws 1 w).
      rewrite Hv.
      destruct (IH (after_draws 1 (after_draws 1 w))) as (jobs & n & Hn).
      rewrite Hn. eexists. exists (n + 2)%nat.
      unfold after_draws; simpl.
      replace (n + 2 + drawn w)%nat with (n + S (S (drawn w)))%nat by lia.
      reflexivity.
    + destruct (IH (after_draws 1 w)) as (jobs & n & Hn).
      change {| draws := draws w; drawn := S (drawn w); calls := calls w |}
        with (after_draws 1 w).
      rewrite Hn. exists jobs, (n + 1)%nat.
      unfold after_draws; simpl.
      replace (n + 1 + drawn w)%nat with (n + S (drawn w))%nat by lia.
      reflexivity.
Qed.

Lemma find_jobType :
  forall jobTitle,
    In jobTitle (keys jobTypes) ->
    exists details,
      find (fun '(title, _) => String.eqb title jobTitle) jobTypes =
      Some (jobTitle, details).
Proof.
  intros jobTitle Hin. simpl in Hin.
  repeat (destruct Hin as [<- | Hin]; [eexists; reflexivity|]).
  contradiction.
Qed.

(** C10.  With no location set (it is [null]), [getAvailableJobs],
    [calculateSalary] and [acceptJob] with a title of the catalog throw a
    TypeError and change nothing; with no job, [tryForRaise] throws a
    TypeError and changes nothing.  With a location that [setLocation]
    accepted, the first three return; with a job, [tryForRaise] returns. *)
Theorem location_and_job_preconditions :
  forall e w,
    (location (player e) = None ->
       getAvailableJobs e w = Throws TypeError e w /\
       (forall baseSalary, calculateSalary baseSalary e w = Throws TypeError e w) /\
       (forall jobTitle, In jobTitle (keys jobTypes) ->
          acceptJob jobTitle e w = Throws TypeError e w)) /\
    (job (player e) = None -> tryForRaise e w = Throws TypeError e w) /\
    (forall l, location (player e) = Some l -> truthy (lookup locations l) = true ->
       (exists availableJobs w', getAvailableJobs e w = Returns availableJobs e w') /\
       (forall baseSalary, exists v w', calculateSalary baseSalary e w = Returns v e w') /\
       (forall jobTitle, In jobTitle (keys jobTypes) ->
          exists e' w', acceptJob jobTitle e w = Returns true e' w')) /\
    (forall current, job (player e) = Some current ->
       exists raiseAmount e' w', tryForRaise e w = Returns raiseAmount e' w').
Proof.
  intros e w. repeat split.
  - unfold getAvailableJobs. exec. now rewrite H.
  - intros baseSalary. now apply calculateSalary_without_location.
  - intros jobTitle Hin. destruct (find_jobType jobTitle Hin) as [details Hfind].
    unfold acceptJob. rewrite Hfind. unfold bind at 1.
    now rewrite calculateSalary_without_location.
  - intros Hjob. unfold tryForRaise. exec. now rewrite Hjob.
  - pose proof (fun f => rollJobs_returns f jobTypes e w l H H0) as Hroll.
    unfold getAvailableJobs. exec. rewrite H. unfold property_key.
    destruct (lookup locations l); try discriminate; exec.
    + destruct (Hroll (Num (jobOpportunities a))) as (jobs & n & Hjobs).
      rewrite Hjobs. notify. do 2 eexists. reflexivity.
    + destruct (Hroll Undefined) as (jobs & n & Hjobs).
      rewrite Hjobs. notify. do 2 eexists. reflexivity.
  - intros baseSalary.
    destruct (calculateSalary_returns baseSalary e w l H H0) as [v Hv].
    eauto.
  - intros jobTitle Hin. destruct (find_jobType jobTitle Hin) as [details Hfind].
    unfold acceptJob. rewrite Hfind. unfold bind at 1.
    destruct (calculateSalary_returns (Num (baseSalary details)) e w l H H0) as [v ->].
    exec. notify. do 2 eexists. reflexivity.
  - intros current Hjob. unfold tryForRaise. exec. rewrite Hjob. exec.
    match goal with |- context [if ?c then _ else _] => destruct c end.
    + exec. notify. do 3 eexists. reflexivity.
    + do 3 eexists. reflexivity.
Qed.

(** C10 at the engine as constructed: no location, no job. *)
Lemma location_and_job_preconditions_witness :
  getAvailableJobs initial (constant_world 0%Qc) =
    Throws TypeError initial (constant_world 0%Qc) /\
  acceptJob "Retail" initial (constant_world 0%Qc) =
    Throws TypeError initial (constant_world 0%Qc) /\
  tryForRaise initial (constant_world 0%Qc) =
    Throws TypeError initial (constant_world 0%Qc).
Proof.
  destruct (location_and_job_preconditions initial (constant_world 0%Qc))
    as (Hloc & Hjob & _).
  destruct (Hloc eq_refl) as (Hjobs & _ & Haccept).
  split; [exact Hjobs|]. split.
  - apply Haccept. simpl. tauto.
  - apply Hjob. reflexivity.
Defined.

(** C7.  With every draw equal to 0, at "Big City" (salary multiplier 1.3),
    education 1 and experience 0, [calculateSalary(30000)] returns
    round(30000 * 1.3 * (1 + 1*0.05 + 0*0.03) * 0.9), which is
    round(30000 * 1.3 * 1.05 * 0.9) = 36855, after one draw and with the
    engine unchanged. *)
Theorem calculateSalary_Big_City :
  forall e w,
    location (player e) = Some "Big City" ->
    get (skills (player e)) "education" = Num (int 1) ->
    get (skills (player e)) "experience" = Num (int 0) ->
    (forall n, draws w n = 0%Qc) ->
    option_map salaryMultiplier (own locations "Big City") = Some (dec 13 10) /\
    calculateSalary (Num (int 30000)) e w =
      Returns
        (Math_round
           (Num (int 30000 * dec 13 10
                 * (int 1 + int 1 * dec 5 100 + int 0 * dec 3 100) * dec 9 10)%Qc))
        e (after_draws 1 w) /\
    Math_round
      (Num (int 30000 * dec 13 10
            * (int 1 + int 1 * dec 5 100 + int 0 * dec 3 100) * dec 9 10)%Qc) =
    Math_round (Num (int 30000 * dec 13 10 * dec 105 100 * dec 9 10)%Qc) /\
    Math_round (Num (int 30000 * dec 13 10 * dec 105 100 * dec 9 10)%Qc) =
    Num (int 36855).
Proof.
  intros e w Hloc Hedu Hexp Hdraws.
  split; [reflexivity|]. split; [|split; vm_compute; reflexivity].
  unfold calculateSalary. exec. rewrite Hloc.
  change (lookup locations (property_key (Some "Big City")))
    with (Own (mkLocation (dec 15 10) (dec 12 10) (dec 13 10) (int 1500)
                 "High cost of living but better job opportunities and salaries.")).
  exec. rewrite Hedu, Hexp, Hdraws. unfold after_draws.
  f_equal; vm_compute; reflexivity.
Qed.

(** C7 on the engine as constructed, moved to "Big City". *)
Lemma calculateSalary_Big_City_witness :
  calculateSalary (Num (int 30000))
    (with_player (set_location (Some "Big City")) initial) (constant_world 0%Qc) =
  Returns (Num (int 36855))
    (with_player (set_location (Some "Big City")) initial)
    (after_draws 1 (constant_world 0%Qc)).
Proof.
  destruct (calculateSalary_Big_City
              (with_player (set_location (Some "Big City")) initial)
              (constant_world 0%Qc) eq_refl eq_refl eq_refl (fun _ => eq_refl))
    as (_ & Hrun & Hsame & Hvalue).
  rewrite Hrun, Hsame, Hvalue. reflexivity.
Defined.

(** Three numbers whose binary64 form is well known: 0.1 is
    3602879701896397 / 2^55, 0.1 + 0.2 is 5404319552844596 / 2^54 (that is
    0.30000000000000004) and 1.3 is 5854679515581645 / 2^52. *)
Lemma binary64_known_values :
  (Binary64.literal 1 10 == 3602879701896397 # (2 ^ 55))%Q /\
  (Binary64.fadd (Binary64.literal 1 10) (Binary64.literal 2 10)
     == 5404319552844596 # (2 ^ 54))%Q /\
  (Binary64.literal 13 10 == 5854679515581645 # (2 ^ 52))%Q.
Proof. repeat split; vm_compute; reflexivity. Qed.

(** The value of C7 does not depend on the exactness of the arithmetic:
    with every operation rounded to binary64, [calculateSalary(30000)] at
    "Big City" with education 1, experience 0 and a draw of 0 is 36855 too,
    and so is round(30000 * 1.3 * 1.05 * 0.9) computed in binary64. *)
Lemma calculateSalary_Big_City_binary64 :
  Binary64.calculateSalary 30000 (Binary64.literal 13 10) 1 0 0 = 36855 /\
  Binary64.Math_round
    (Binary64.fmul
       (Binary64.fmul (Binary64.fmul 30000 (Binary64.literal 13 10))
          (Binary64.literal 105 100))
       (Binary64.literal 9 10)) = 36855.
Proof. split; vm_compute; reflexivity. Qed.

(** ** Objects *)

Lemma own_set_same :
  forall (A : Type) (o : list (string * A)) key v, own (set o key v) key = Some v.
Proof.
  intros A o key v. induction o as [|[k x] rest IH]; simpl.
  - now rewrite String.eqb_refl.
  - destruct (String.eqb k key) eqn:Hk; simpl; rewrite Hk; auto.
Qed.

Lemma own_set_other :
  forall (A : Type) (o : list (string * A)) key v other,
    other <> key -> own (set o key v) other = own o other.
Proof.
  intros A o key v other Hne. induction o as [|[k x] rest IH]; simpl.
  - destruct (String.eqb key other) eqn:Hk; [|reflexivity].
    apply String.eqb_eq in Hk. congruence.
  - destruct (String.eqb k key) eqn:Hk; simpl.
    + apply String.eqb_eq in Hk. subst k.
      destruct (String.eqb key other) eqn:Hk'; [|reflexivity].
      apply String.eqb_eq in Hk'. congruence.
    + now rewrite IH.
Qed.

Lemma keys_set_present :
  forall (A : Type) (o : list (string * A)) key v,
    hasOwnProperty o key = true -> keys (set o key v) = keys o.
Proof.
  intros A o key v. unfold hasOwnProperty, keys.
  induction o as [|[k x] rest IH]; simpl.
  - discriminate.
  - destruct (String.eqb k key) eqn:Hk; simpl; [reflexivity|].
    intros Hown. now rewrite IH.
Qed.

Lemma hasOwnProperty_keys :
  forall (A : Type) (o : list (string * A)) key,
    hasOwnProperty o key = existsb (String.eqb key) (keys o).
Proof.
  intros A o key. unfold hasOwnProperty, keys.
  induction o as [|[k x] rest IH]; simpl; [reflexivity|].
  rewrite (String.eqb_sym key k).
  destruct (String.eqb k key); simpl; [reflexivity|exact IH].
Qed.

Lemma get_set_same :
  forall (o : object) key v, get (set o key v) key = v.
Proof. intros o key v. unfold get. now rewrite own_set_same. Qed.

Lemma get_set_other :
  forall (o : object) key v other,
    other <> key -> get (set o key v) other = get o other.
Proof. intros o key v other Hne. unfold get. now rewrite own_set_other. Qed.

(** ** Numbers *)

Lemma lt_not_ge : forall a b, lt a b = true -> ge a b = false.
Proof.
  intros [| |x] [| |y]; unfold lt, ge, compare_with; try discriminate.
  destruct (Qccompare x y); congruence.
Qed.

Lemma lt_spec : forall x y, lt (Num x) (Num y) = true <-> (x < y)%Qc.
Proof.
  intros x y. unfold lt, compare_with, Qclt, Qccompare.
  rewrite Qlt_alt. destruct (this x ?= this y)%Q; split; congruence.
Qed.

Lemma ge_numbers :
  forall a b, ge a b = true -> exists x y, a = Num x /\ b = Num y.
Proof.
  intros [| |x] [| |y]; unfold ge, compare_with; try discriminate. eauto.
Qed.

Lemma int_1 : int 1 = 1%Qc.
Proof. apply Qc_is_canon. reflexivity. Qed.

Lemma mul_one_amount :
  forall a b, mul (mul a (Num (int 1))) b = mul a b.
Proof.
  intros [| |x] [| |y]; unfold mul, arith; try reflexivity.
  rewrite int_1. f_equal. ring.
Qed.

(** ** Skills *)



(** ** Failures *)

Lemma find_own :
  forall (A : Type) (o : list (string * A)) key,
    hasOwnProperty o key = false ->
    find (fun '(k, _) => String.eqb k key) o = None.
Proof.
  intros A o key. unfold hasOwnProperty.
  induction o as [|[k x] rest IH]; simpl; [reflexivity|].
  destruct (String.eqb k key); [discriminate|exact IH].
Qed.

(** C2, at the input where the code departs from it.  "toString" names no
    location of the catalog, yet for every engine [setLocation("toString")]
    returns true: the catalog inherits a member of that name, which is
    truthy.  The location becomes "toString", housing becomes [undefined]
    and the five basic expenses become [NaN]. *)
Theorem setLocation_inherited_name :
  forall e w,
    hasOwnProperty locations "toString" = false /\
    exists e',
      setLocation "toString" e w =
        Returns true e' (notified "locationChanged" (LocationChanged "toString") e w) /\
      location (player e') = Some "toString" /\
      get (expenses (player e')) "housing" = Undefined /\
      get (expenses (player e')) "food" = NaN /\
      get (expenses (player e')) "utilities" = NaN /\
      get (expenses (player e')) "transportation" = NaN /\
      get (expenses (player e')) "entertainment" = NaN /\
      get (expenses (player e')) "other" = NaN.
Proof.
  intros e w. split; [reflexivity|].
  unfold setLocation.
  change (lookup locations "toString") with (@Inherited Location).
  cbv iota beta delta [truthy]. unfold updateBasicExpenses. exec.
  change (lookup locations (property_key (Some "toString")))
    with (@Inherited Location).
  exec. notify.
  eexists. split; [reflexivity|]. project.
  repeat split;
    repeat (first [ apply get_set_same
                  | rewrite get_set_other by discriminate ]).
Qed.

(** The failures that do leave the engine unchanged: a location name that is
    neither in the catalog nor inherited, a job title, an expense category
    or a skill that is not an own key, and savings that do not cover the
    cost of a skill. *)
Lemma failures_change_nothing :
  forall e w,
    (forall locationName, lookup locations locationName = Absent ->
       setLocation locationName e w = Returns false e w) /\
    (forall jobTitle, hasOwnProperty jobTypes jobTitle = false ->
       acceptJob jobTitle e w = Returns false e w) /\
    (forall category amount,
       hasOwnProperty (expenses (player e)) category = false ->
       updateExpense category amount e w = Returns false e w) /\
    (forall skillName amount,
       hasOwnProperty (skills (player e)) skillName = false ->
       improveSkill skillName amount e w = Returns false e w) /\
    (forall skillName amount,
       ge (savings (finance (player e)))
          (mul (mul (Num (int 500)) (default_amount amount))
               (add (get (skills (player e)) skillName) (Num (int 1)))) = false ->
       improveSkill skillName amount e w = Returns false e w).
Proof.
  intros e w. repeat split.
  - intros locationName Habsent. unfold setLocation. now rewrite Habsent.
  - intros jobTitle Hown. unfold acceptJob. now rewrite find_own.
  - intros category amount Hown. unfold updateExpense. exec. now rewrite Hown.
  - intros skillName amount Hown. unfold improveSkill. exec. now rewrite Hown.
  - intros skillName amount Hge. unfold improveSkill. exec.
    destruct (hasOwnProperty (skills (player e)) skillName); [|reflexivity].
    exec. now rewrite Hge.
Qed.

(** ** Expenses *)

Lemma add_comm : forall a b, add a b = add b a.
Proof.
  intros [| |x] [| |y]; unfold add, arith; try reflexivity.
  f_equal. ring.
Qed.

Lemma add_assoc : forall a b c, add a (add b c) = add (add a b) c.
Proof.
  intros [| |x] [| |y] [| |z]; unfold add, arith; try reflexivity.
  f_equal. ring.
Qed.

Lemma sum_of_Permutation :
  forall x names names',
    Permutation names names' -> sum_of x names = sum_of x names'.
Proof.
  intros x names names' Hperm. unfold sum_of.
  induction Hperm as [|c l l' _ IH|c c' l|l l' l'' _ IH _ IH']; simpl.
  - reflexivity.
  - now rewrite IH.
  - rewrite !add_assoc. now rewrite (add_comm (get x c')).
  - now rewrite IH.
Qed.

Lemma values_get :
  forall x : object, NoDup (keys x) -> values x = map (get x) (keys x).
Proof.
  induction x as [|[k v] rest IH]; intros Hnodup; simpl; [reflexivity|].
  inversion Hnodup as [|k' ks Hnotin Hrest]; subst.
  unfold get at 1. simpl. rewrite String.eqb_refl. f_equal.
  rewrite (IH Hrest). apply map_ext_in. intros c Hc.
  unfold get. simpl.
  destruct (String.eqb k c) eqn:Hk; [|reflexivity].
  apply String.eqb_eq in Hk. subst c. contradiction.
Qed.

Lemma fold_add_sum_of :
  forall x names,
    fold_left (fun total expense => add total expense) (map (get x) names)
      (Num (int 0)) =
    sum_of x names.
Proof.
  intros x names.
  rewrite (fold_symmetric (fun total expense => add total expense)).
  - unfold sum_of. induction names as [|c rest IH]; simpl; [reflexivity|].
    now rewrite IH.
  - intros a b c. apply add_assoc.
  - intros a. apply add_comm.
Qed.

(** What the reduction computes, whatever the object holds: the sum of all
    its stored values. *)
Lemma calculateTotalMonthlyExpenses_all :
  forall e w,
    NoDup (keys (expenses (player e))) ->
    calculateTotalMonthlyExpenses e w =
    Returns (sum_of (expenses (player e)) (keys (expenses (player e)))) e w.
Proof.
  intros e w Hnodup. unfold calculateTotalMonthlyExpenses. exec.
  now rewrite (values_get _ Hnodup), fold_add_sum_of.
Qed.

Lemma NoDup_categories : NoDup categories.
Proof.
  unfold categories.
  repeat (constructor; [simpl; intuition discriminate|]). constructor.
Qed.




(** ** Random events *)

Lemma after_draws_0 : forall w, after_draws 0 w = w.
Proof. intros [d n c]. reflexivity. Qed.

Lemma after_draws_S :
  forall n w, after_draws n (after_draws 1 w) = after_draws (S n) w.
Proof.
  intros n w. unfold after_draws. simpl. f_equal. lia.
Qed.

Lemma scanEvents_run :
  forall events e w,
    scanEvents events e w =
    match first_qualifying events (draws w) (drawn w) with
    | Some (k, event) =>
        Returns tt (fired event e)
          (notified "randomEvent"
             (RandomEventFired (name event) (description event)
                (event_cost event (player e)))
             e (after_draws (S k) w))
    | None => Returns tt e (after_draws (List.length events) w)
    end.
Proof.
  induction events as [|event rest IH]; intros e w.
  - simpl. now rewrite after_draws_0.
  - simpl scanEvents. simpl first_qualifying. exec.
    destruct (lt (Num (draws w (drawn w))) (Num (probability event))).
    + exec. notify. reflexivity.
    + change {| draws := draws w; drawn := S (drawn w); calls := calls w |}
        with (after_draws 1 w).
      rewrite IH. simpl draws. simpl drawn.
      destruct (first_qualifying rest (draws w) (S (drawn w))) as [[k later]|].
      * now rewrite after_draws_S.
      * now rewrite after_draws_S.
Qed.

Lemma first_qualifying_spec :
  forall events draw next,
    match first_qualifying events draw next with
    | Some (k, event) =>
        nth_error events k = Some event /\
        (draw (k + next)%nat < probability event)%Qc /\
        (forall j earlier,
           (j < k)%nat -> nth_error events j = Some earlier ->
           ~ (draw (j + next)%nat < probability earlier)%Qc)
    | None =>
        forall j event,
          nth_error events j = Some event ->
          ~ (draw (j + next)%nat < probability event)%Qc
    end.
Proof.
  induction events as [|event rest IH]; intros draw next; simpl.
  - intros [|j] ev; discriminate.
  - destruct (lt (Num (draw next)) (Num (probability event))) eqn:Hlt.
    + repeat split.
      * now apply lt_spec.
      * intros j earlier Hj. lia.
    + assert (Hnot : ~ (draw next < probability event)%Qc).
      { intros H. apply lt_spec in H. congruence. }
      specialize (IH draw (S next)).
      destruct (first_qualifying rest draw (S next)) as [[k later]|].
      * destruct IH as (Hnth & Hbelow & Hearlier). repeat split.
        -- exact Hnth.
        -- now replace (S k + next)%nat with (k + S next)%nat by lia.
        -- intros [|j] earlier Hj Hsome; simpl in Hsome.
           ++ now injection Hsome as <-.
           ++ replace (S j + next)%nat with (j + S next)%nat by lia.
              apply (Hearlier j); [lia|exact Hsome].
      * intros [|j] ev Hsome; simpl in Hsome.
        -- now injection Hsome as <-.
        -- replace (S j + next)%nat with (j + S next)%nat by lia.
           now apply IH.
Qed.


(** C4 with every draw equal to 0, which is below every probability: only
    "Car Breakdown", the first event, fires; its cost of 800 is taken from
    the savings of 2000 and one draw is taken. *)
Lemma processRandomEvent_all_qualify :
  match processRandomEvent initial (constant_world 0%Qc) with
  | Returns _ e' w' =>
      drawn w' = 1%nat /\
      savings (finance (player e')) = Num (int 1200) /\
      map entry (history (player e')) =
        [ RandomEventHappened "Car Breakdown" "Your car needs repairs." false
            (Num (int 800)) ]
  | Throws _ _ _ => False
  end.
Proof. vm_compute. repeat split. Qed.

(** A negative cost raises savings: when the draws of the first two events
    are not below their probabilities and the third is, "Tax Refund" fires
    after three draws and the savings of 2000 become 2500, though the draws
    left would have fired the last two events as well. *)
Lemma processRandomEvent_tax_refund :
  match processRandomEvent initial
          {| draws := fun n => if (n <? 2)%nat then dec 1 2 else 0%Qc;
             drawn := 0%nat; calls := [] |} with
  | Returns _ e' w' =>
      drawn w' = 3%nat /\
      savings (finance (player e')) = Num (int 2500) /\
      map entry (history (player e')) =
        [ RandomEventHappened "Tax Refund" "You received a tax refund!" true
            (Num (int 500)) ]
  | Throws _ _ _ => False
  end.
Proof. vm_compute. repeat split. Qed.

(** ** The monthly step *)

Lemma tryForRaise_returns :
  forall e w current,
    job (player e) = Some current ->
    exists raiseAmount e' w',
      tryForRaise e w = Returns raiseAmount e' w' /\
      gameMonth e' = gameMonth e /\
      gameYear e' = gameYear e.
Proof.
  intros e w current Hjob. unfold tryForRaise. exec. rewrite Hjob. exec.
  match goal with |- context [if ?c then _ else _] => destruct c end.
  - exec. notify. do 3 eexists. repeat split.
  - do 3 eexists. repeat split.
Qed.

Lemma processRandomEvent_returns :
  forall e w,
    exists e' w',
      processRandomEvent e w = Returns tt e' w' /\
      gameMonth e' = gameMonth e /\
      gameYear e' = gameYear e.
Proof.
  intros e w. unfold processRandomEvent. rewrite scanEvents_run.
  destruct (first_qualifying randomEvents (draws w) (drawn w)) as [[k event]|];
    do 2 eexists; repeat split.
Qed.

(** The calendar after [processMonth], whatever the month was. *)
Lemma processMonth_calendar :
  forall e w,
    exists result e' w',
      processMonth e w = Returns result e' w' /\
      gameMonth e' = (if gameMonth e + 1 >? 12 then 1 else gameMonth e + 1) /\
      gameYear e' = (if gameMonth e + 1 >? 12 then gameYear e + 1 else gameYear e) /\
      result_month result = gameMonth e' /\
      result_year result = gameYear e'.
Proof.
  intros e w. unfold processMonth, calculateTotalMonthlyExpenses. exec.
  destruct (job (player e)) as [current|] eqn:Hjob; exec.
  - match goal with |- context [tryForRaise ?e1 ?w1] =>
      assert (Hworking :
        job (player e1) =
        Some (set_monthsWorked (add (monthsWorked current) (Num (int 1))) current))
        by (project; now rewrite Hjob);
      destruct (tryForRaise_returns e1 w1 _ Hworking)
        as (v & e2 & w2 & -> & Hm2 & Hy2)
    end.
    project_in Hm2. project_in Hy2.
    match goal with |- context [processRandomEvent ?e3 ?w3] =>
      destruct (processRandomEvent_returns e3 w3) as (e4 & w4 & -> & Hm4 & Hy4)
    end.
    project_in Hm4. project_in Hy4. rewrite Hm4, Hy4, Hm2, Hy2.
    destruct (gameMonth e + 1 >? 12); exec; notify;
      do 3 eexists; (split; [reflexivity|]); repeat split.
  - match goal with |- context [processRandomEvent ?e3 ?w3] =>
      destruct (processRandomEvent_returns e3 w3) as (e4 & w4 & -> & Hm4 & Hy4)
    end.
    project_in Hm4. project_in Hy4. rewrite Hm4, Hy4.
    destruct (gameMonth e + 1 >? 12); exec; notify;
      do 3 eexists; (split; [reflexivity|]); repeat split.
Qed.



(** ** Invariants *)

Lemma keeps_ret :
  forall (I : Engine -> Prop) (A : Type) (a : A), keeps I (ret a).
Proof. intros I A a e w HI. exact HI. Qed.

Lemma keeps_readonly :
  forall (I : Engine -> Prop) (A : Type) (m : M A), readonly m -> keeps I m.
Proof. intros I A m Hm e w HI. now rewrite Hm. Qed.

Lemma keeps_modify :
  forall (I : Engine -> Prop) (f : Engine -> Engine),
    (forall e, I e -> I (f e)) -> keeps I (modify f).
Proof. intros I f Hf e w HI. now apply Hf. Qed.

Lemma keeps_bind :
  forall (I : Engine -> Prop) (A B : Type) (m : M A) (k : A -> M B),
    keeps I m -> (forall a, keeps I (k a)) -> keeps I (bind m k).
Proof.
  intros I A B m k Hm Hk e w HI. unfold bind.
  specialize (Hm e w HI).
  destruct (m e w) as [a e' w'|x e' w']; simpl in Hm.
  - now apply Hk.
  - exact Hm.
Qed.

Lemma hasOwnProperty_category :
  forall e c,
    invariant e -> In c categories ->
    hasOwnProperty (expenses (player e)) c = true.
Proof.
  intros e c [Hkeys _] Hc. rewrite hasOwnProperty_keys, Hkeys.
  apply existsb_exists. exists c. split; [exact Hc|apply String.eqb_refl].
Qed.

Lemma keeps_set_expense :
  forall c v, In c categories -> keeps invariant (set_expense c v).
Proof.
  intros c v Hc. apply keeps_modify. intros e HI.
  pose proof (hasOwnProperty_category e c HI Hc) as Hown.
  destruct HI as [Hkeys Hsalary]. split; project.
  - now rewrite keys_set_present.
  - exact Hsalary.
Qed.

Lemma keeps_set_finance_savings :
  forall v, keeps invariant (set_finance_savings v).
Proof.
  intros v. apply keeps_modify. intros e [Hkeys Hsalary]. split; assumption.
Qed.

Lemma keeps_addToHistory :
  forall entry, keeps invariant (addToHistory entry).
Proof.
  intros entry. apply keeps_modify. intros e [Hkeys Hsalary]. split; assumption.
Qed.

Lemma keeps_set_calendar :
  forall m y : Engine -> Z,
    keeps invariant (modify (fun e => set_calendar (m e) (y e) e)).
Proof.
  intros m y. apply keeps_modify. intros e [Hkeys Hsalary]. split; assumption.
Qed.

Lemma keeps_monthsWorked :
  forall f : Job -> jsval,
    keeps invariant (update_job (fun j => set_monthsWorked (f j) j)).
Proof.
  intros f. apply keeps_modify. intros e [Hkeys Hsalary].
  split; [exact Hkeys|].
  unfold salary_matches_job in *. project.
  destruct (job (player e)); exact Hsalary.
Qed.

Lemma keeps_triggerEvent :
  forall event data, keeps invariant (triggerEvent event data).
Proof. intros. apply keeps_readonly, readonly_triggerEvent. Qed.

Lemma invariant_fired :
  forall event e, invariant e -> invariant (fired event e).
Proof. intros event e [Hkeys Hsalary]. split; assumption. Qed.

Lemma keeps_processRandomEvent : keeps invariant processRandomEvent.
Proof.
  intros e w HI. unfold processRandomEvent. rewrite scanEvents_run.
  destruct (first_qualifying randomEvents (draws w) (drawn w)) as [[k event]|].
  - now apply invariant_fired.
  - exact HI.
Qed.

Lemma keeps_tryForRaise : keeps invariant tryForRaise.
Proof.
  intros e w [Hkeys Hsalary]. unfold tryForRaise. exec.
  destruct (job (player e)) as [current|] eqn:Hjob; [|now split].
  exec.
  match goal with |- context [if ?c then _ else _] => destruct c end.
  - exec. notify. split; project; [exact Hkeys|].
    unfold salary_matches_job. project. now rewrite Hjob.
  - now split.
Qed.

Lemma keeps_acceptJob : forall jobTitle, keeps invariant (acceptJob jobTitle).
Proof.
  intros jobTitle e w [Hkeys Hsalary]. unfold acceptJob.
  destruct (find _ jobTypes) as [[title details]|]; [|now split].
  unfold bind at 1.
  pose proof (readonly_calculateSalary (Num (baseSalary details)) e w) as Hsame.
  destruct (calculateSalary (Num (baseSalary details)) e w) as [v e' w'|x e' w'];
    simpl in Hsame; subst e'.
  - exec. notify. split; project; [exact Hkeys|reflexivity].
  - now split.
Qed.

Lemma keeps_updateBasicExpenses : keeps invariant updateBasicExpenses.
Proof.
  unfold updateBasicExpenses.
  apply keeps_bind; [apply keeps_readonly, readonly_gets|intros l].
  apply keeps_bind; [apply keeps_readonly, readonly_field|intros c].
  repeat (apply keeps_bind; [apply keeps_set_expense; simpl; tauto|intros _]).
  apply keeps_set_expense; simpl; tauto.
Qed.

Lemma keeps_setLocation : forall locationName, keeps invariant (setLocation locationName).
Proof.
  intros locationName. unfold setLocation.
  destruct (truthy (lookup locations locationName)); [|apply keeps_ret].
  apply keeps_bind.
  { apply keeps_modify. intros e [Hkeys Hsalary]. split; assumption. }
  intros _.
  apply keeps_bind; [apply keeps_readonly, readonly_field|intros housing].
  apply keeps_bind; [apply keeps_set_expense; simpl; tauto|intros _].
  apply keeps_bind; [apply keeps_updateBasicExpenses|intros _].
  apply keeps_bind; [apply keeps_triggerEvent|intros _].
  apply keeps_ret.
Qed.

Lemma keeps_updateExpense :
  forall category amount, keeps invariant (updateExpense category amount).
Proof.
  intros category amount e w HI. unfold updateExpense, calculateTotalMonthlyExpenses.
  exec.
  destruct (hasOwnProperty (expenses (player e)) category) eqn:Hown; [|exact HI].
  exec. notify. destruct HI as [Hkeys Hsalary]. split; project.
  - now rewrite keys_set_present.
  - exact Hsalary.
Qed.

Lemma keeps_improveSkill :
  forall skillName amount, keeps invariant (improveSkill skillName amount).
Proof.
  intros skillName amount e w HI. unfold improveSkill. exec.
  destruct (hasOwnProperty (skills (player e)) skillName); [|exact HI].
  exec.
  match goal with |- context [if ?c then _ else _] => destruct c end;
    [|exact HI].
  exec. notify. destruct HI as [Hkeys Hsalary]. split; assumption.
Qed.

Lemma keeps_addEventListener :
  forall event callback, keeps invariant (addEventListener event callback).
Proof.
  intros event callback e w HI. unfold addEventListener. exec.
  destruct (lookup (eventListeners e) event); exec;
    solve [exact HI | destruct HI; split; assumption].
Qed.

Lemma keeps_processMonth : keeps invariant processMonth.
Proof.
  unfold processMonth.
  apply keeps_bind; [apply keeps_readonly, readonly_gets|intros j].
  apply keeps_bind.
  { destruct j as [current|]; [|apply keeps_ret].
    apply keeps_bind; [apply keeps_readonly, readonly_gets|intros f].
    apply keeps_bind; [apply keeps_set_finance_savings|intros _].
    apply keeps_bind; [apply (keeps_monthsWorked
                                (fun j => add (monthsWorked j) (Num (int 1))))|intros _].
    apply keeps_bind; [apply keeps_tryForRaise|intros _].
    apply keeps_ret. }
  intros _.
  apply keeps_bind;
    [apply keeps_readonly, readonly_calculateTotalMonthlyExpenses|intros total].
  apply keeps_bind; [apply keeps_readonly, readonly_gets|intros s].
  apply keeps_bind; [apply keeps_set_finance_savings|intros _].
  apply keeps_bind; [apply keeps_processRandomEvent|intros _].
  apply keeps_bind;
    [apply (keeps_set_calendar (fun e => gameMonth e + 1) gameYear)|intros _].
  apply keeps_bind; [apply keeps_readonly, readonly_gets|intros m].
  apply keeps_bind.
  { destruct (m >? 12); [|apply keeps_ret].
    apply (keeps_set_calendar (fun _ => 1) (fun e => gameYear e + 1)). }
  intros _.
  apply keeps_bind; [apply keeps_readonly, readonly_gets|intros e].
  apply keeps_bind; [apply keeps_addToHistory|intros _].
  apply keeps_bind; [apply keeps_triggerEvent|intros _].
  apply keeps_ret.
Qed.

Lemma keeps_reload :
  keeps invariant (state <- getGameState ;; loadGameState state).
Proof.
  intros e w HI. unfold loadGameState, getGameState. exec. notify.
  destruct HI as [Hkeys Hsalary]. split; [exact Hkeys|exact Hsalary].
Qed.

Lemma invariant_initial : invariant initial.
Proof. split; reflexivity. Qed.

Lemma invariant_perform :
  forall op e w, invariant e -> invariant (perform op e w).
Proof.
  intros op e w HI. destruct op; unfold perform.
  - now apply keeps_setLocation.
  - now rewrite readonly_getAvailableJobs.
  - now apply keeps_acceptJob.
  - now rewrite readonly_calculateSalary.
  - now apply keeps_tryForRaise.
  - now apply keeps_processMonth.
  - now apply keeps_processRandomEvent.
  - now rewrite readonly_calculateTotalMonthlyExpenses.
  - now apply keeps_updateBasicExpenses.
  - now apply keeps_updateExpense.
  - now apply keeps_improveSkill.
  - now apply keeps_addToHistory.
  - now apply keeps_addEventListener.
  - now rewrite readonly_triggerEvent.
  - now rewrite readonly_getGameState.
  - now apply keeps_reload.
  - exact HI.
Qed.



(** ** What an operation leaves alone *)

Lemma preserves_readonly :
  forall (T A : Type) (part : Engine -> T) (m : M A),
    readonly m -> preserves part m.
Proof. intros T A part m Hm e w. now rewrite Hm. Qed.

Lemma preserves_modify :
  forall (T : Type) (part : Engine -> T) (f : Engine -> Engine),
    (forall e, part (f e) = part e) -> preserves part (modify f).
Proof. intros T part f Hf e w. apply Hf. Qed.

Lemma preserves_bind :
  forall (T A B : Type) (part : Engine -> T) (m : M A) (k : A -> M B),
    preserves part m -> (forall a, preserves part (k a)) ->
    preserves part (bind m k).
Proof.
  intros T A B part m k Hm Hk e w. unfold bind.
  specialize (Hm e w).
  destruct (m e w) as [a e' w'|x e' w']; simpl in Hm.
  - now rewrite Hk.
  - exact Hm.
Qed.

Lemma preserves_processRandomEvent :
  forall (T : Type) (part : Engine -> T),
    (forall event e, part (fired event e) = part e) ->
    preserves part processRandomEvent.
Proof.
  intros T part Hfired e w. unfold processRandomEvent. rewrite scanEvents_run.
  destruct (first_qualifying randomEvents (draws w) (drawn w)) as [[k event]|].
  - apply Hfired.
  - reflexivity.
Qed.

Lemma readonly_reload :
  readonly (state <- getGameState ;; loadGameState state).
Proof.
  intros e w. unfold loadGameState, getGameState. exec. notify.
  destruct e; reflexivity.
Qed.

#[local] Hint Resolve readonly_getAvailableJobs
  readonly_calculateTotalMonthlyExpenses readonly_getGameState
  readonly_reload : readonly.

Ltac frame_step :=
  first
    [ apply preserves_readonly; solve [auto 10 with readonly]
    | apply preserves_modify; intros ?; project;
      solve [ reflexivity
            | match goal with |- context [job (player ?e)] =>
                destruct (job (player e)); reflexivity
              end ]
    | apply preserves_processRandomEvent; intros; reflexivity
    | apply preserves_bind; [ | intros ? ]
    | match goal with
      | |- preserves _ (match ?x with _ => _ end) => destruct x
      end
    | progress unfold setLocation, updateBasicExpenses, acceptJob, tryForRaise,
        processMonth, updateExpense, improveSkill, addToHistory,
        addEventListener, loadGameState, resetGame, constructor,
        set_expense, set_finance_salary, set_finance_savings, update_job ].

Ltac frame part :=
  match goal with
  | |- context [engine_of (?m ?e ?w)] =>
      refine ((_ : preserves part m) e w); repeat frame_step
  end.



(** ** The history *)

Lemma extends_history_refl : forall e, extends_history e e.
Proof. intros e. exists []. now rewrite app_nil_r. Qed.

Lemma extends_history_trans :
  forall e e' e'',
    extends_history e e' -> extends_history e' e'' -> extends_history e e''.
Proof.
  intros e e' e'' [added H] [added' H']. exists (added ++ added').
  now rewrite H', H, app_assoc.
Qed.

Lemma grows_readonly :
  forall (A : Type) (m : M A), readonly m -> grows m.
Proof. intros A m Hm e w. rewrite Hm. apply extends_history_refl. Qed.

Lemma grows_modify :
  forall f : Engine -> Engine,
    (forall e, extends_history e (f e)) -> grows (modify f).
Proof. intros f Hf e w. apply Hf. Qed.

Lemma grows_bind :
  forall (A B : Type) (m : M A) (k : A -> M B),
    grows m -> (forall a, grows (k a)) -> grows (bind m k).
Proof.
  intros A B m k Hm Hk e w. unfold bind.
  specialize (Hm e w).
  destruct (m e w) as [a e' w'|x e' w']; simpl in Hm.
  - apply (extends_history_trans _ _ _ Hm). apply Hk.
  - exact Hm.
Qed.

Lemma grows_processRandomEvent : grows processRandomEvent.
Proof.
  intros e w. unfold processRandomEvent. rewrite scanEvents_run.
  destruct (first_qualifying randomEvents (draws w) (drawn w)) as [[k event]|].
  - eexists. unfold fired. project. reflexivity.
  - apply extends_history_refl.
Qed.

Ltac grows_step :=
  first
    [ apply grows_readonly; solve [auto 10 with readonly]
    | apply grows_processRandomEvent
    | apply grows_modify; intros ?; unfold extends_history; project;
      first [ exists []; now rewrite app_nil_r | eexists; reflexivity ]
    | apply grows_bind; [ | intros ? ]
    | match goal with
      | |- grows (match ?x with _ => _ end) => destruct x
      end
    | progress unfold setLocation, updateBasicExpenses, acceptJob, tryForRaise,
        processMonth, updateExpense, improveSkill, addToHistory,
        addEventListener, loadGameState, resetGame, constructor,
        set_expense, set_finance_salary, set_finance_savings, update_job ].


(** ** Configuration *)

Lemma expenses_by_category :
  forall x : object,
    keys x = categories ->
    exists housing food utilities transportation entertainment other,
      x = [ ("housing", housing); ("food", food); ("utilities", utilities);
            ("transportation", transportation);
            ("entertainment", entertainment); ("other", other) ].
Proof.
  intros x Hkeys. unfold keys, categories in Hkeys.
  repeat (destruct x as [|[? ?] x]; [discriminate|];
          simpl in Hkeys; injection Hkeys as <- Hkeys).
  destruct x; [|discriminate]. do 6 eexists. reflexivity.
Qed.

(** X3.  For a location of the catalog and an engine whose expenses are
    stored under the six categories, [setLocation] returns true, tells the
    listeners of 'locationChanged', sets the location, and sets every
    expense from the location alone: housing to its housing cost and food,
    utilities, transportation, entertainment and other to 400, 200, 300, 200
    and 100 times its cost multiplier, rounded.  Amounts set earlier with
    [updateExpense] are overwritten. *)
Theorem setLocation_catalog :
  forall locationName l e w,
    own locations locationName = Some l ->
    keys (expenses (player e)) = categories ->
    exists e',
      setLocation locationName e w =
        Returns true e'
          (notified "locationChanged" (LocationChanged locationName) e w) /\
      location (player e') = Some locationName /\
      expenses (player e') =
        [ ("housing", Num (housingCost l));
          ("food", Math_round (mul (Num (int 400)) (Num (costMultiplier l))));
          ("utilities", Math_round (mul (Num (int 200)) (Num (costMultiplier l))));
          ("transportation",
             Math_round (mul (Num (int 300)) (Num (costMultiplier l))));
          ("entertainment",
             Math_round (mul (Num (int 200)) (Num (costMultiplier l))));
          ("other", Math_round (mul (Num (int 100)) (Num (costMultiplier l)))) ].
Proof.
  intros locationName l e w Hown Hkeys.
  destruct (expenses_by_category _ Hkeys) as (h & f & u & t & n & o & Hx).
  unfold setLocation, updateBasicExpenses, property_key, lookup.
  rewrite Hown. cbv iota beta delta [truthy]. exec. rewrite Hown. exec. notify.
  eexists. split; [reflexivity|]. project. split; [reflexivity|].
  rewrite Hx. reflexivity.
Qed.

(** X3 at "Big City" on a new engine: 1500, 600, 300, 450, 300 and 150. *)
Lemma setLocation_catalog_witness :
  exists e',
    setLocation "Big City" initial (constant_world 0%Qc) =
      Returns true e' (constant_world 0%Qc) /\
    location (player e') = Some "Big City" /\
    expenses (player e') =
      [ ("housing", Num (int 1500)); ("food", Num (int 600));
        ("utilities", Num (int 300)); ("transportation", Num (int 450));
        ("entertainment", Num (int 300)); ("other", Num (int 150)) ].
Proof.
  destruct (setLocation_catalog "Big City"
              (mkLocation (dec 15 10) (dec 12 10) (dec 13 10) (int 1500)
                 "High cost of living but better job opportunities and salaries.")
              initial (constant_world 0%Qc) eq_refl eq_refl)
    as (e' & Hrun & Hloc & Hexp).
  exists e'. split; [exact Hrun|]. split; [exact Hloc|].
  rewrite Hexp. vm_compute. reflexivity.
Defined.

(** X4.  For a category the expenses hold, [updateExpense] returns true
    for any amount (it is not checked: negative and [NaN] pass), stores the
    amount under the category, leaves the other categories and the set of
    categories as they were, and tells the listeners of 'expenseUpdated' the
    category, the amount and the total, which is the total that
    [calculateTotalMonthlyExpenses()] returns after the update. *)
Theorem updateExpense_known_category :
  forall category amount e w,
    hasOwnProperty (expenses (player e)) category = true ->
    exists e' totalExpenses,
      updateExpense category amount e w =
        Returns true e'
          (notified "expenseUpdated"
             (ExpenseUpdated category amount totalExpenses) e w) /\
      get (expenses (player e')) category = amount /\
      (forall other, other <> category ->
         get (expenses (player e')) other = get (expenses (player e)) other) /\
      keys (expenses (player e')) = keys (expenses (player e)) /\
      (forall w', calculateTotalMonthlyExpenses e' w' = Returns totalExpenses e' w').
Proof.
  intros category amount e w Hown.
  unfold updateExpense, calculateTotalMonthlyExpenses. exec. rewrite Hown.
  exec. notify. do 2 eexists. split; [reflexivity|]. project.
  split; [apply get_set_same|].
  split; [intros other Hne; now apply get_set_other|].
  split; [now apply keys_set_present|].
  intros w'. reflexivity.
Qed.

(** X4 on a new engine: food set to 250. *)
Lemma updateExpense_known_category_witness :
  exists e' totalExpenses,
    engine_of (updateExpense "food" (Num (int 250)) initial (constant_world 0%Qc)) = e' /\
    get (expenses (player e')) "food" = Num (int 250) /\
    get (expenses (player e')) "housing" = Num (int 0) /\
    calculateTotalMonthlyExpenses e' (constant_world 0%Qc) =
      Returns totalExpenses e' (constant_world 0%Qc).
Proof.
  destruct (updateExpense_known_category "food" (Num (int 250)) initial
              (constant_world 0%Qc) eq_refl)
    as (e' & total & Hrun & Hget & Hother & _ & Htotal).
  exists e', total. split; [now rewrite Hrun|]. split; [exact Hget|].
  split; [|apply Htotal].
  rewrite Hother by discriminate. reflexivity.
Defined.

(** ** The range of a salary *)

Lemma round_monotone : forall x y : Qc, (x <= y)%Qc -> round x <= round y.
Proof.
  intros x y Hxy. unfold round. apply Qfloor_resp_le.
  change (x + dec 1 2 <= y + dec 1 2)%Qc.
  apply Qcplus_le_compat; [exact Hxy|apply Qcle_refl].
Qed.

Lemma Qcmult_le_compat_l :
  forall x y z : Qc, (x <= y)%Qc -> (0 <= z)%Qc -> (z * x <= z * y)%Qc.
Proof.
  intros x y z Hxy Hz. rewrite (Qcmult_comm z x), (Qcmult_comm z y).
  now apply Qcmult_le_compat_r.
Qed.

Lemma randomFactor_range :
  forall r : Qc,
    (0 <= r)%Qc -> (r < 1)%Qc ->
    (dec 9 10 <= dec 9 10 + r * dec 2 10)%Qc /\
    (dec 9 10 + r * dec 2 10 <= dec 11 10)%Qc.
Proof.
  intros r H0 H1. split.
  - rewrite <- (Qcplus_0_r (dec 9 10)) at 1.
    apply Qcplus_le_compat; [apply Qcle_refl|].
    rewrite <- (Qcmult_0_l (dec 2 10)).
    apply Qcmult_le_compat_r; [exact H0|discriminate].
  - replace (dec 11 10) with (dec 9 10 + 1 * dec 2 10)%Qc
      by (apply Qc_is_canon; reflexivity).
    apply Qcplus_le_compat; [apply Qcle_refl|].
    apply Qcmult_le_compat_r; [now apply Qclt_le_weak|discriminate].
Qed.



(** ** Accepting a job *)

Lemma find_own_some :
  forall (A : Type) (o : list (string * A)) key v,
    own o key = Some v ->
    find (fun '(k, _) => String.eqb k key) o = Some (key, v).
Proof.
  intros A o key v. induction o as [|[k x] rest IH]; simpl; [discriminate|].
  destruct (String.eqb k key) eqn:Hk.
  - apply String.eqb_eq in Hk. subst k. now intros [= ->].
  - exact IH.
Qed.

(** X6.  With a location that [setLocation] accepted, [acceptJob] with a
    title of the catalog always succeeds: the education and experience
    requirements of the job are not checked, nor that the job was offered.
    The job is replaced by a new one with that title, the salary that
    [calculateSalary] returns for the base salary (one draw) and no month
    worked; [finance.salary] becomes that salary; one history entry is
    added; the listeners of 'jobAccepted' are told. *)
Theorem acceptJob_catalog_title :
  forall jobTitle details locationName e w,
    own jobTypes jobTitle = Some details ->
    location (player e) = Some locationName ->
    truthy (lookup locations locationName) = true ->
    exists newSalary e',
      calculateSalary (Num (baseSalary details)) e w =
        Returns newSalary e (after_draws 1 w) /\
      acceptJob jobTitle e w =
        Returns true e'
          (notified "jobAccepted"
             (JobAccepted {| title := jobTitle; job_salary := newSalary;
                             monthsWorked := Num (int 0) |})
             e (after_draws 1 w)) /\
      job (player e') =
        Some {| title := jobTitle; job_salary := newSalary;
                monthsWorked := Num (int 0) |} /\
      salary (finance (player e')) = newSalary /\
      history (player e') =
        history (player e) ++
        [ {| month := gameMonth e; year := gameYear e;
             entry := GotJob jobTitle newSalary |} ].
Proof.
  intros jobTitle details locationName e w Hown Hloc Hl.
  destruct (calculateSalary_returns (Num (baseSalary details)) e w
              locationName Hloc Hl) as [v Hv].
  exists v. eexists. split; [exact Hv|].
  unfold acceptJob. rewrite (find_own_some _ _ _ _ Hown).
  unfold bind at 1. rewrite Hv. exec. notify.
  split; [reflexivity|]. project. repeat split.
Qed.

(** X6 for a new player (education 1, no experience) at "Big City":
    "Executive", which asks for education 3 and experience 5, is accepted. *)
Lemma acceptJob_catalog_title_witness :
  exists newSalary e' w',
    acceptJob "Executive"
      (with_player (set_location (Some "Big City")) initial)
      (constant_world 0%Qc) = Returns true e' w' /\
    job (player e') =
      Some {| title := "Executive"; job_salary := newSalary;
              monthsWorked := Num (int 0) |} /\
    salary (finance (player e')) = newSalary.
Proof.
  destruct (acceptJob_catalog_title "Executive"
              (mkJobType 3 5 120000 "Top-level position with extensive requirements.")
              "Big City"
              (with_player (set_location (Some "Big City")) initial)
              (constant_world 0%Qc) eq_refl eq_refl eq_refl)
    as (v & e' & _ & Hrun & Hjob & Hsalary & _).
  exists v, e'. eexists. split; [exact Hrun|]. split; assumption.
Defined.

(** ** Raises *)

Lemma tryForRaise_outcome :
  forall e w current,
    job (player e) = Some current ->
    tryForRaise e w =
    if lt (Num (draws w (drawn w)))
          (raiseChance (monthsWorked current)
             (get (skills (player e)) "experience")
             (get (skills (player e)) "networking"))
    then
      let raisePercent :=
        add (Num (dec 3 100)) (mul (Num (draws w (S (drawn w)))) (Num (dec 5 100))) in
      let oldSalary := salary (finance (player e)) in
      let newSalary := Math_round (mul oldSalary (add (Num (int 1)) raisePercent)) in
      Returns (sub newSalary oldSalary)
        (raised newSalary oldSalary raisePercent e)
        (notified "gotRaise" (Raise oldSalary newSalary raisePercent) e
           (after_draws 2 w))
    else Returns (Num (int 0)) e (after_draws 1 w).
Proof.
  intros e w current Hjob. unfold tryForRaise, raiseChance. exec.
  rewrite Hjob. exec.
  match goal with |- context [if ?c then _ else _] => destruct c end.
  - exec. notify. reflexivity.
  - reflexivity.
Qed.

Lemma int_minus : forall a b : Z, (int a - int b)%Qc = int (a - b).
Proof.
  intros a b. apply Qc_is_canon. unfold int, Qcminus, Qcplus, Qcopp.
  cbn [this Q2Qc]. rewrite !Qred_correct.
  unfold Z.sub. rewrite inject_Z_plus, inject_Z_opp. reflexivity.
Qed.

Lemma round_int : forall z : Z, round (int z) = z.
Proof.
  intros z. unfold round.
  assert (Heq : (this (int z + dec 1 2)%Qc == inject_Z z + (1 # 2))%Q).
  { unfold int, dec, Qcplus. cbn [this Q2Qc]. now rewrite !Qred_correct. }
  rewrite Heq. unfold Qfloor. simpl.
  replace (z * 2 + 1) with (1 + z * 2) by ring.
  rewrite Z.div_add by discriminate. reflexivity.
Qed.

Lemma int_nonnegative : forall z : Z, 0 <= z -> (0 <= int z)%Qc.
Proof.
  intros z Hz. unfold Qcle, int. cbn [this Q2Qc]. rewrite !Qred_correct.
  unfold Qle. simpl. lia.
Qed.

Lemma raise_factor_range :
  forall r : Qc,
    (0 <= r)%Qc -> (r < 1)%Qc ->
    (dec 103 100 <= int 1 + (dec 3 100 + r * dec 5 100))%Qc /\
    (int 1 + (dec 3 100 + r * dec 5 100) <= dec 108 100)%Qc.
Proof.
  intros r H0 H1. split.
  - replace (dec 103 100) with (int 1 + (dec 3 100 + 0 * dec 5 100))%Qc
      by (apply Qc_is_canon; reflexivity).
    repeat (apply Qcplus_le_compat; [apply Qcle_refl|]).
    apply Qcmult_le_compat_r; [exact H0|discriminate].
  - replace (dec 108 100) with (int 1 + (dec 3 100 + 1 * dec 5 100))%Qc
      by (apply Qc_is_canon; reflexivity).
    repeat (apply Qcplus_le_compat; [apply Qcle_refl|]).
    apply Qcmult_le_compat_r; [now apply Qclt_le_weak|discriminate].
Qed.





(** ** The accounts of a month *)

Lemma first_qualifying_In :
  forall events draw next k event,
    first_qualifying events draw next = Some (k, event) -> In event events.
Proof.
  induction events as [|first rest IH]; intros draw next k event; simpl.
  - discriminate.
  - destruct (lt (Num (draw next)) (Num (probability first))).
    + intros [= _ <-]. now left.
    + destruct (first_qualifying rest draw (S next)) as [[k' later]|] eqn:Hrest;
        [|discriminate].
      intros [= _ <-]. right. eapply IH. exact Hrest.
Qed.

(** The cost of an event of the catalog depends on the salary alone. *)
Lemma event_cost_salary :
  forall event p p',
    In event randomEvents ->
    salary (finance p) = salary (finance p') ->
    event_cost event p = event_cost event p'.
Proof.
  intros event p p' Hin Hsalary. simpl in Hin.
  repeat (destruct Hin as [<- | Hin]; [try reflexivity|]).
  - unfold event_cost. cbn [cost]. now rewrite Hsalary.
  - contradiction.
Qed.




(** ** Listeners *)

(** X11.  Subscription order.  For an event name that [Object.prototype]
    does not define, [addEventListener] returns and puts the callback last
    among the listeners of the event, leaving the listeners of other events
    as they were; a later [triggerEvent] for the event calls the listeners
    that were there, in their order, and then the new one, each with the
    data given.  A callback registered twice is called twice. *)
Theorem addEventListener_then_triggerEvent :
  forall event callback e w,
    existsb (String.eqb event) Object_prototype = false ->
    exists e',
      addEventListener event callback e w = Returns tt e' w /\
      listeners e' event = listeners e event ++ [callback] /\
      (forall other, other <> event -> listeners e' other = listeners e other) /\
      (forall data w',
         triggerEvent event data e' w' =
         Returns tt e'
           {| draws := draws w'; drawn := drawn w';
              calls := calls w' ++
                       map (fun c => (c, event, data))
                         (listeners e event ++ [callback]) |}).
Proof.
  intros event callback e w Hname.
  assert (Hrun : exists e',
    addEventListener event callback e w = Returns tt e' w /\
    eventListeners e' =
      set (eventListeners e) event (listeners e event ++ [callback])).
  { unfold addEventListener, lookup, listeners. exec.
    destruct (own (eventListeners e) event) as [callbacks|].
    - exec. eexists. split; reflexivity.
    - rewrite Hname. exec. eexists. split; reflexivity. }
  destruct Hrun as (e' & Hrun & Hregistry).
  assert (Hlisteners : listeners e' event = listeners e event ++ [callback]).
  { unfold listeners at 1. now rewrite Hregistry, own_set_same. }
  exists e'. split; [exact Hrun|]. split; [exact Hlisteners|]. split.
  - intros other Hne. unfold listeners. now rewrite Hregistry, own_set_other.
  - intros data w'. rewrite (triggerEvent_returns _ _ _ _ Hname).
    unfold notified. now rewrite Hlisteners.
Qed.

(** X11 on a new engine: listener 7 subscribes to 'monthProcessed' twice and
    is then called twice. *)
Lemma addEventListener_then_triggerEvent_witness :
  exists e1 e2,
    addEventListener "monthProcessed" 7%nat initial (constant_world 0%Qc) =
      Returns tt e1 (constant_world 0%Qc) /\
    addEventListener "monthProcessed" 7%nat e1 (constant_world 0%Qc) =
      Returns tt e2 (constant_world 0%Qc) /\
    calls (world_of (triggerEvent "monthProcessed" Null e2 (constant_world 0%Qc))) =
      [ (7%nat, "monthProcessed", Null); (7%nat, "monthProcessed", Null) ].
Proof.
  destruct (addEventListener_then_triggerEvent "monthProcessed" 7%nat initial
              (constant_world 0%Qc) eq_refl) as (e1 & Hrun1 & Hl1 & _ & _).
  destruct (addEventListener_then_triggerEvent "monthProcessed" 7%nat e1
              (constant_world 0%Qc) eq_refl) as (e2 & Hrun2 & _ & _ & Hcall).
  exists e1, e2. split; [exact Hrun1|]. split; [exact Hrun2|].
  rewrite Hcall, Hl1. reflexivity.
Defined.

(** X12.  An event name that [Object.prototype] defines ('toString',
    'constructor', ...) and that the registry does not hold as its own key
    can be neither subscribed to nor triggered: [addEventListener] and
    [triggerEvent] both throw a TypeError and change nothing. *)
Theorem inherited_event_name_throws :
  forall event e w,
    existsb (String.eqb event) Object_prototype = true ->
    own (eventListeners e) event = None ->
    (forall callback, addEventListener event callback e w = Throws TypeError e w) /\
    (forall data, triggerEvent event data e w = Throws TypeError e w).
Proof.
  intros event e w Hname Hown. split; intros ?;
    unfold addEventListener, triggerEvent, lookup; exec;
    now rewrite Hown, Hname.
Qed.

(** X12 for 'toString' on a new engine. *)
Lemma inherited_event_name_throws_witness :
  addEventListener "toString" 7%nat initial (constant_world 0%Qc) =
    Throws TypeError initial (constant_world 0%Qc) /\
  triggerEvent "toString" Null initial (constant_world 0%Qc) =
    Throws TypeError initial (constant_world 0%Qc).
Proof.
  destruct (inherited_event_name_throws "toString" initial (constant_world 0%Qc)
              eq_refl eq_refl) as [Hadd Htrigger].
  split; [apply Hadd|apply Htrigger].
Defined.

(** ** Skills, in general *)

Lemma ge_spec : forall x y, ge (Num x) (Num y) = true <-> (y <= x)%Qc.
Proof.
  intros x y. unfold ge, compare_with.
  change (y <= x)%Qc with (x >= y)%Qc. rewrite Qcge_alt.
  destruct (x ?= y)%Qc; split; congruence.
Qed.

Lemma improveSkill_paid :
  forall skillName amount level balance e w,
    own (skills (player e)) skillName = Some (Num level) ->
    savings (finance (player e)) = Num balance ->
    (int 500 * amount * (level + int 1) <= balance)%Qc ->
    exists e',
      improveSkill skillName (Num amount) e w =
        Returns true e'
          (notified "skillImproved"
             (SkillImproved skillName (Num (level + amount))
                (Num (int 500 * amount * (level + int 1)))) e w) /\
      own (skills (player e')) skillName = Some (Num (level + amount)) /\
      (forall other, other <> skillName ->
         own (skills (player e')) other = own (skills (player e)) other) /\
      keys (skills (player e')) = keys (skills (player e)) /\
      savings (finance (player e')) =
        Num (balance - int 500 * amount * (level + int 1)) /\
      history (player e') =
        history (player e) ++
        [ {| month := gameMonth e; year := gameYear e;
             entry := ImprovedSkill skillName (Num (level + amount))
                        (Num (int 500 * amount * (level + int 1))) |} ].
Proof.
  intros skillName amount level balance e w Hown Hbalance Hcost.
  assert (Hhas : hasOwnProperty (skills (player e)) skillName = true)
    by (unfold hasOwnProperty; now rewrite Hown).
  assert (Hget : get (skills (player e)) skillName = Num level)
    by (unfold get; now rewrite Hown).
  unfold improveSkill. exec. rewrite Hhas. exec.
  rewrite Hget, Hbalance. cbn [default_amount].
  change (mul (mul (Num (int 500)) (Num amount)) (add (Num level) (Num (int 1))))
    with (Num (int 500 * amount * (level + int 1))%Qc).
  rewrite (proj2 (ge_spec _ _) Hcost). exec.
  rewrite get_set_same. notify. project. rewrite ?Hget.
  eexists. split; [reflexivity|]. project. rewrite ?Hget.
  split; [apply own_set_same|].
  split; [intros other Hne; now apply own_set_other|].
  split; [now apply keys_set_present|].
  split; reflexivity.
Qed.





(** ** Snapshots *)


(** ** Job offers *)

Lemma rollJobs_offers :
  forall locationFactor entries e w l,
    location (player e) = Some l ->
    truthy (lookup locations l) = true ->
    exists availableJobs,
      rollJobs locationFactor entries e w =
        Returns availableJobs e
          (after_draws (List.length entries + List.length availableJobs) w) /\
      subsequence
        (map (fun o => (offer_title o, offer_details o)) availableJobs) entries.
Proof.
  intros locationFactor entries e w l Hloc Hl. revert w.
  induction entries as [|[jobTitle jobDetails] rest IH]; intros w.
  - exists []. split; [now rewrite after_draws_0|constructor].
  - simpl rollJobs. exec.
    change {| draws := draws w; drawn := S (drawn w); calls := calls w |}
      with (after_draws 1 w).
    match goal with |- context [if ?c then _ else _] => destruct c end.
    + destruct (calculateSalary_returns (Num (baseSalary jobDetails)) e
                  (after_draws 1 w) l Hloc Hl) as [v Hv].
      rewrite Hv.
      destruct (IH (after_draws 1 (after_draws 1 w))) as (jobs & Hrun & Hsub).
      rewrite Hrun.
      exists ({| offer_title := jobTitle; offer_details := jobDetails;
                 adjustedSalary := v |} :: jobs).
      split.
      * rewrite !after_draws_S. cbn [List.length].
        replace (S (List.length rest) + S (List.length jobs))%nat
          with (S (S (List.length rest + List.length jobs))) by lia.
        reflexivity.
      * cbn [map offer_title offer_details]. now constructor.
    + destruct (IH (after_draws 1 w)) as (jobs & Hrun & Hsub).
      rewrite Hrun. exists jobs. split.
      * rewrite after_draws_S. reflexivity.
      * now constructor.
Qed.

(** X16.  With a location that [setLocation] accepted, [getAvailableJobs]
    returns and changes nothing.  The offers are jobs of the catalog, in
    catalog order, each at most once and with the requirements and base
    salary of the catalog; the listeners of 'jobsAvailable' are told the
    list that is returned; and the call takes one draw for each of the six
    jobs plus one for each offer. *)
Theorem getAvailableJobs_offers :
  forall e w l,
    location (player e) = Some l ->
    truthy (lookup locations l) = true ->
    exists availableJobs,
      getAvailableJobs e w =
        Returns availableJobs e
          (notified "jobsAvailable" (JobsAvailable availableJobs) e
             (after_draws (6 + List.length availableJobs) w)) /\
      subsequence
        (map (fun o => (offer_title o, offer_details o)) availableJobs) jobTypes.
Proof.
  intros e w l Hloc Hl.
  pose proof (fun f => rollJobs_offers f jobTypes e w l Hloc Hl) as Hroll.
  unfold getAvailableJobs. exec. rewrite Hloc. unfold property_key.
  destruct (lookup locations l); try discriminate; exec.
  - destruct (Hroll (Num (jobOpportunities a))) as (jobs & Hrun & Hsub).
    rewrite Hrun. notify. exists jobs. split; [reflexivity|exact Hsub].
  - destruct (Hroll Undefined) as (jobs & Hrun & Hsub).
    rewrite Hrun. notify. exists jobs. split; [reflexivity|exact Hsub].
Qed.

(** X16 for a new player at "Big City" with every draw equal to 1/2: the
    score of every job is 0.6 + 0.05 or more, so all six are offered, the
    ones the player does not qualify for included, after twelve draws. *)
Lemma getAvailableJobs_offers_witness :
  exists availableJobs w',
    getAvailableJobs (with_player (set_location (Some "Big City")) initial)
      (constant_world (dec 1 2)) =
    Returns availableJobs (with_player (set_location (Some "Big City")) initial) w' /\
    map offer_title availableJobs = keys jobTypes /\
    drawn w' = 12%nat.
Proof.
  destruct (getAvailableJobs_offers
              (with_player (set_location (Some "Big City")) initial)
              (constant_world (dec 1 2)) "Big City" eq_refl eq_refl)
    as (jobs & Hrun & _).
  exists jobs. eexists. split; [exact Hrun|].
  assert (Hjobs :
    match getAvailableJobs (with_player (set_location (Some "Big City")) initial)
            (constant_world (dec 1 2)) with
    | Returns offers _ _ => map offer_title offers = keys jobTypes
    | Throws _ _ _ => False
    end) by (vm_compute; reflexivity).
  rewrite Hrun in Hjobs. split; [exact Hjobs|].
  cbn [notified drawn after_draws constant_world].
  apply (f_equal (@List.length string)) in Hjobs.
  rewrite length_map in Hjobs. rewrite Hjobs. reflexivity.
Defined.

(** ** Well-formed engines *)

Lemma settled_same :
  forall e e',
    keys (skills (player e')) = keys (skills (player e)) ->
    location (player e') = location (player e) ->
    option_map title (job (player e')) = option_map title (job (player e)) ->
    salary (finance (player e')) = salary (finance (player e)) ->
    settled e -> settled e'.
Proof.
  intros e e' Hskills Hloc Hjob Hsalary (Hkeys & Hvalid & Htitle & Hwhole).
  unfold settled. rewrite Hskills, Hloc, Hsalary.
  repeat split; try assumption.
  - destruct (job (player e)) as [j0|]; rewrite H in Hjob; [|discriminate].
    injection Hjob as ->. now apply (Htitle j0).
  - destruct (job (player e)) as [j0|]; rewrite H in Hjob; [|discriminate].
    now apply (Htitle j0).
Qed.

Lemma Math_round_whole : forall v, whole_or_NaN (Math_round v).
Proof.
  intros [| |x]; [now left|now left|].
  right. exists (round x). reflexivity.
Qed.

Lemma calculateSalary_whole :
  forall baseSalary e w v e' w',
    calculateSalary baseSalary e w = Returns v e' w' ->
    whole_or_NaN v /\ location (player e) <> None.
Proof.
  intros baseSalary e w v e' w'. unfold calculateSalary. exec.
  destruct (location (player e)) as [l|]; unfold property_key.
  - destruct (lookup locations l); exec; try discriminate;
      intros [= <- _ _]; (split; [apply Math_round_whole|discriminate]).
  - change (lookup locations "null") with (@Absent Location). discriminate.
Qed.

Lemma find_title_In :
  forall (A : Type) (o : list (string * A)) key k v,
    find (fun '(k, _) => String.eqb k key) o = Some (k, v) -> In k (keys o).
Proof.
  intros A o key k v. induction o as [|[k0 x] rest IH]; simpl; [discriminate|].
  destruct (String.eqb k0 key).
  - intros [= <- _]. now left.
  - intros H. right. now apply IH.
Qed.

Lemma keeps_settled_modify :
  forall f : Engine -> Engine,
    (forall e,
       keys (skills (player (f e))) = keys (skills (player e)) /\
       location (player (f e)) = location (player e) /\
       option_map title (job (player (f e))) = option_map title (job (player e)) /\
       salary (finance (player (f e))) = salary (finance (player e))) ->
    keeps settled (modify f).
Proof.
  intros f Hf. apply keeps_modify. intros e HI.
  destruct (Hf e) as (H1 & H2 & H3 & H4). now apply (settled_same e).
Qed.

Lemma keeps_settled_processRandomEvent : keeps settled processRandomEvent.
Proof.
  intros e w HI. unfold processRandomEvent. rewrite scanEvents_run.
  destruct (first_qualifying randomEvents (draws w) (drawn w)) as [[k event]|].
  - now apply (settled_same e).
  - exact HI.
Qed.

Lemma keeps_settled_tryForRaise : keeps settled tryForRaise.
Proof.
  intros e w HI.
  destruct (job (player e)) as [current|] eqn:Hjob.
  - rewrite (tryForRaise_outcome e w current Hjob).
    match goal with |- context [if ?c then _ else _] => destruct c end;
      [|exact HI].
    cbv zeta. cbn [engine_of].
    destruct HI as (Hkeys & Hvalid & Htitle & Hwhole).
    unfold settled, raised. project. rewrite Hjob.
    split; [exact Hkeys|]. split; [exact Hvalid|]. split.
    + intros j [= <-]. now apply (Htitle current).
    + apply Math_round_whole.
  - unfold tryForRaise. exec. rewrite Hjob. exact HI.
Qed.

Lemma keeps_settled_acceptJob :
  forall jobTitle, keeps settled (acceptJob jobTitle).
Proof.
  intros jobTitle e w HI. unfold acceptJob.
  destruct (find _ jobTypes) as [[title details]|] eqn:Hfind; [|exact HI].
  unfold bind at 1.
  pose proof (readonly_calculateSalary (Num (baseSalary details)) e w) as Hsame.
  destruct (calculateSalary (Num (baseSalary details)) e w)
    as [v e' w'|x e' w'] eqn:Hsalary; simpl in Hsame; subst e'; [|exact HI].
  destruct (calculateSalary_whole _ _ _ _ _ _ Hsalary) as [Hwhole Hloc].
  exec. notify. cbn [engine_of].
  destruct HI as (Hkeys & Hvalid & _ & _).
  unfold settled. project.
  split; [exact Hkeys|]. split; [exact Hvalid|]. split; [|exact Hwhole].
  intros j [= <-]. split; [|exact Hloc].
  eapply find_title_In. exact Hfind.
Qed.

Lemma keeps_settled_improveSkill :
  forall skillName amount, keeps settled (improveSkill skillName amount).
Proof.
  intros skillName amount e w HI. unfold improveSkill. exec.
  destruct (hasOwnProperty (skills (player e)) skillName) eqn:Hown; [|exact HI].
  exec.
  match goal with |- context [if ?c then _ else _] => destruct c end;
    [|exact HI].
  exec. notify. apply (settled_same e); project; try reflexivity; try exact HI.
  now apply keys_set_present.
Qed.

Ltac settled_step :=
  first
    [ apply keeps_ret
    | apply keeps_readonly; solve [auto 10 with readonly]
    | apply keeps_settled_tryForRaise
    | apply keeps_settled_processRandomEvent
    | apply keeps_settled_modify; intros ?; project;
      repeat split;
      match goal with
      | |- context [job (player ?e)] => destruct (job (player e)); reflexivity
      | _ => reflexivity
      end
    | apply keeps_bind; [ | intros ? ]
    | match goal with
      | |- keeps _ (match ?x with _ => _ end) => destruct x
      end
    | progress unfold updateBasicExpenses, processMonth, updateExpense,
        addToHistory, addEventListener, resetGame, constructor,
        set_expense, set_finance_salary, set_finance_savings, update_job ].

Lemma keeps_settled_setLocation :
  forall locationName, keeps settled (setLocation locationName).
Proof.
  intros locationName. unfold setLocation.
  destruct (truthy (lookup locations locationName)) eqn:Hl; [|apply keeps_ret].
  apply keeps_bind; [|intros _; repeat settled_step].
  apply keeps_modify. intros e (Hkeys & Hvalid & Htitle & Hwhole).
  unfold settled. project.
  split; [exact Hkeys|]. split; [now intros l [= <-]|]. split; [|exact Hwhole].
  intros j Hj. split; [now apply (Htitle j)|discriminate].
Qed.

Lemma settled_perform :
  forall op e w, settled e -> settled (perform op e w).
Proof.
  intros op e w HI. destruct op; unfold perform;
    first
      [ now apply keeps_settled_setLocation
      | now apply keeps_settled_acceptJob
      | now apply keeps_settled_improveSkill
      | match goal with
        | |- settled (engine_of (?m ?e ?w)) =>
            refine ((_ : keeps settled m) e w HI); repeat settled_step
        end ].
Qed.

Lemma calendar_perform :
  forall op e w,
    1 <= gameMonth e <= 12 -> 1 <= gameYear e ->
    1 <= gameMonth (perform op e w) <= 12 /\ 1 <= gameYear (perform op e w).
Proof.
  intros op e w Hm Hy.
  destruct op;
    try (unfold perform;
         replace (gameMonth (engine_of _)) with (gameMonth e)
           by (symmetry; frame gameMonth);
         replace (gameYear (engine_of _)) with (gameYear e)
           by (symmetry; frame gameYear);
         split; assumption).
  unfold perform.
  destruct (processMonth_calendar e w)
    as (result & e' & w' & -> & Hm' & Hy' & _ & _).
  cbn [engine_of]. rewrite Hm', Hy'.
  destruct (Z.gtb_spec (gameMonth e + 1) 12); split; lia.
Qed.



(** ** Basic expenses *)

(** X18.  At a location of the catalog, with the expenses stored under the
    six categories, [updateBasicExpenses] returns, sets food, utilities,
    transportation, entertainment and other to 400, 200, 300, 200 and 100
    times the cost multiplier, rounded, and leaves housing as it is (a
    housing amount set with [updateExpense] survives it).  It is
    idempotent: a second call changes nothing. *)
Theorem updateBasicExpenses_catalog :
  forall locationName l e w,
    location (player e) = Some locationName ->
    own locations locationName = Some l ->
    keys (expenses (player e)) = categories ->
    exists e',
      updateBasicExpenses e w = Returns tt e' w /\
      expenses (player e') =
        [ ("housing", get (expenses (player e)) "housing");
          ("food", Math_round (mul (Num (int 400)) (Num (costMultiplier l))));
          ("utilities", Math_round (mul (Num (int 200)) (Num (costMultiplier l))));
          ("transportation",
             Math_round (mul (Num (int 300)) (Num (costMultiplier l))));
          ("entertainment",
             Math_round (mul (Num (int 200)) (Num (costMultiplier l))));
          ("other", Math_round (mul (Num (int 100)) (Num (costMultiplier l)))) ] /\
      forall w', updateBasicExpenses e' w' = Returns tt e' w'.
Proof.
  intros locationName l e w Hloc Hown Hkeys.
  destruct (expenses_by_category _ Hkeys) as (h & f & u & t & n & o & Hx).
  destruct e as [[loc jb sk fin x hist] m y d ls].
  cbn [player expenses location] in Hloc, Hx |- *. subst x loc.
  unfold updateBasicExpenses, property_key, lookup. exec.
  rewrite Hown. exec.
  eexists. split; [reflexivity|]. split; [reflexivity|].
  intros w'. exec. rewrite Hown. reflexivity.
Qed.

(** X18 at "Big City" after housing was set to 999: housing stays. *)
Lemma updateBasicExpenses_catalog_witness :
  let e :=
    with_player (fun p =>
      set_location (Some "Big City")
        (set_expenses (set (expenses p) "housing" (Num (int 999))) p)) initial in
  exists e',
    updateBasicExpenses e (constant_world 0%Qc) = Returns tt e' (constant_world 0%Qc) /\
    get (expenses (player e')) "housing" = Num (int 999) /\
    get (expenses (player e')) "food" = Num (int 600).
Proof.
  intros e.
  destruct (updateBasicExpenses_catalog "Big City"
              (mkLocation (dec 15 10) (dec 12 10) (dec 13 10) (int 1500)
                 "High cost of living but better job opportunities and salaries.")
              e (constant_world 0%Qc) eq_refl eq_refl eq_refl)
    as (e' & Hrun & Hexp & _).
  exists e'. split; [exact Hrun|]. rewrite Hexp.
  split; vm_compute; reflexivity.
Defined.
